(** * peer: offer/answer negotiation over an RTCPeerConnection

    A shallow embedding of [index.js].  The peer object is a record, its
    methods are computations in a state-and-exception monad, and every call
    the code makes on a collaborator (the emitter and its queue companion,
    the RTCPeerConnection, a caller's callback, [lib/channel]) is appended
    to a trace kept in the state, oldest call first.  The callbacks that
    [create], [session] and [answer] install on the connection are separate
    definitions, run when the transport fires them. *)

From Stdlib Require Import String List ZArith Bool Lia.
From stdpp Require Import base list.
Import ListNotations.

Local Open Scope string_scope.
Local Open Scope list_scope.

Local Set Warnings "-register-all".

(** ** JavaScript values *)

Inductive value : Type :=
| VUndefined
| VNull
| VBool (b : bool)
| VNum (n : Z)
| VStr (s : string)
| VFun (f : nat)                         (* a caller's function, by identity *)
| VObj (props : list (string * value)).

(** [if (v)] *)
Definition truthy (v : value) : bool :=
  match v with
  | VUndefined | VNull => false
  | VBool b => b
  | VNum n => negb (n =? 0)%Z
  | VStr s => negb (s =? "")%string
  | VFun _ | VObj _ => true
  end.

(** [v === 'literal'] *)
Definition strict_eq_str (v : value) (lit : string) : bool :=
  match v with
  | VStr s => (s =? lit)%string
  | _ => false
  end.

Inductive result (A : Type) : Type :=
| Ok (a : A)
| Throw (e : value).
Arguments Ok {A} a.
Arguments Throw {A} e.

Definition TypeError : value := VObj [("name", VStr "TypeError")].

Fixpoint assoc (k : string) (props : list (string * value)) : value :=
  match props with
  | [] => VUndefined
  | (k', v) :: rest => if (k =? k')%string then v else assoc k rest
  end.

(** [v.k]: reading a property of [null] or [undefined] throws. *)
Definition get (v : value) (k : string) : result value :=
  match v with
  | VUndefined | VNull => Throw TypeError
  | VObj props => Ok (assoc k props)
  | _ => Ok VUndefined
  end.

(** ** Session descriptions and codecs *)

Record Session : Type := { type : string; sdp : string }.

Definition with_sdp (s : Session) (text : string) : Session :=
  {| type := type s; sdp := text |}.

Definition session_value (s : Session) : value :=
  VObj [("type", VStr (type s)); ("sdp", VStr (sdp s))].

(** A codec takes the description text and returns a new one, or throws. *)
Definition Codec : Type := string -> result string.

Definition pure_codec (g : string -> string) : Codec := fun text => Ok (g text).

(** ** Calls on collaborators *)

Inductive call : Type :=
| CEmit (topic : string) (args : list value)      (* this.emit(topic, ...args) *)
| CQueue (topic : string) (args : list value)     (* this.queue(topic, ...args) *)
| CNewPeerConnection (servers : value)            (* new PeerConnection(servers) *)
| CAddStream (stream : value)
| CAddIceCandidate (init : value)                 (* addIceCandidate(new Candidate(init)) *)
| CSetLocalDescription (s : Session)              (* setLocalDescription(new Session(s)) *)
| CSetRemoteDescription (s : Session)
| CCreateOffer (opts : value)
| CCreateAnswer (opts : value)
| CCreateDataChannel (label : string)
| CChannel (raw : value)                          (* channel(raw, peer) of lib/channel *)
| CCall (f : nat) (args : list value).            (* a caller's function is invoked *)

(** ** The peer and its connection *)

(** The connection as the code uses it: which callback slots are set, and
    the closures handed to [createOffer]/[createAnswer] that await their
    outcome; a closure is the pair [(fn, type)] it captured. *)
Record PeerConnection : Type := {
  onaddstream : bool;
  onicecandidate : bool;
  ongatheringchange : bool;
  ondatachannel : bool;
  requests : list (value * string)
}.

Record Constraints : Type := { servers : value }.

Record ChannelBinding : Type := { raw : value }.

Record Peer : Type := {
  connection : option PeerConnection;       (* null until create() *)
  constraints : Constraints;
  codecs : list Codec;
  channel : option ChannelBinding;          (* undefined until bound *)
  trace : list call
}.

(** [new Peer(options)] *)
Definition new_Peer (options : Constraints) : Peer :=
  {| connection := None; constraints := options; codecs := [];
     channel := None; trace := [] |}.

Definition set_connection (c : option PeerConnection) (p : Peer) : Peer :=
  {| connection := c; constraints := constraints p; codecs := codecs p;
     channel := channel p; trace := trace p |}.

Definition set_codecs (cs : list Codec) (p : Peer) : Peer :=
  {| connection := connection p; constraints := constraints p; codecs := cs;
     channel := channel p; trace := trace p |}.

Definition set_channel (b : option ChannelBinding) (p : Peer) : Peer :=
  {| connection := connection p; constraints := constraints p; codecs := codecs p;
     channel := b; trace := trace p |}.

Definition add_trace (cs : list call) (p : Peer) : Peer :=
  {| connection := connection p; constraints := constraints p; codecs := codecs p;
     channel := channel p; trace := trace p ++ cs |}.

Definition set_ondatachannel (c : PeerConnection) : PeerConnection :=
  {| onaddstream := onaddstream c; onicecandidate := onicecandidate c;
     ongatheringchange := ongatheringchange c; ondatachannel := true;
     requests := requests c |}.

Definition add_request (r : value * string) (c : PeerConnection) : PeerConnection :=
  {| onaddstream := onaddstream c; onicecandidate := onicecandidate c;
     ongatheringchange := ongatheringchange c; ondatachannel := ondatachannel c;
     requests := requests c ++ [r] |}.

(** ** The monad: state that survives an exception *)

Definition M (A : Type) : Type := Peer -> result A * Peer.

Definition ret {A} (a : A) : M A := fun p => (Ok a, p).

Definition throw {A} (e : value) : M A := fun p => (Throw e, p).

Definition bind {A B} (m : M A) (k : A -> M B) : M B :=
  fun p => match m p with
           | (Ok a, p') => k a p'
           | (Throw e, p') => (Throw e, p')
           end.

Notation "x <- m ;; k" := (bind m (fun x => k))
  (at level 100, m at next level, right associativity).
Notation "m ;; k" := (bind m (fun _ => k))
  (at level 100, right associativity).

Definition lift {A} (r : result A) : M A := fun p => (r, p).

Definition log (c : call) : M unit := fun p => (Ok tt, add_trace [c] p).

Definition modify (f : Peer -> Peer) : M unit := fun p => (Ok tt, f p).

(** [this.connection.m]: a property of [null] cannot be read or written. *)
Definition the_connection : M PeerConnection :=
  fun p => match connection p with
           | Some c => (Ok c, p)
           | None => (Throw TypeError, p)
           end.

Definition emit (topic : string) (args : list value) : M unit := log (CEmit topic args).
Definition queue (topic : string) (args : list value) : M unit := log (CQueue topic args).

(** What a method hands back to its caller. *)
Inductive completion : Type :=
| RUndefined
| RThis.

(** Modelled from the spec: [lib/channel] is not among the sources.  The
    data-channel binder wraps the raw channel and associates it with the
    session; here the call is recorded and the binding made from the raw
    channel it was given. *)
Definition lib_channel (rawchannel : value) : M ChannelBinding :=
  log (CChannel rawchannel) ;; ret {| raw := rawchannel |}.

(** ** Methods of [Peer.prototype] *)

Definition fresh_connection : PeerConnection :=
  {| onaddstream := true; onicecandidate := true; ongatheringchange := true;
     ondatachannel := false; requests := [] |}.

Definition create : M completion :=
  fun p =>
    (log (CNewPeerConnection (servers (constraints p))) ;;
     modify (set_connection (Some fresh_connection)) ;;
     emit "create" [] ;;
     ret RUndefined) p.

(** The three callbacks [create] installs. *)
Definition on_addstream (event : value) : M unit :=
  stream <- lift (get event "stream") ;;
  emit "remote stream" [stream].

Definition on_icecandidate (event : value) : M unit :=
  candidate <- lift (get event "candidate") ;;
  if truthy candidate then emit "candidate" [candidate; event]
  else queue "ready" [].

Definition on_gatheringchange (event : value) : M unit :=
  target <- lift (get event "currentTarget") ;;
  if truthy target then
    state <- lift (get target "iceGatheringState") ;;
    if strict_eq_str state "complete" then queue "ready" [] else ret tt
  else ret tt.

Definition stream (s : value) : M completion :=
  the_connection ;;
  log (CAddStream s) ;;
  queue "local stream" [s] ;;
  ret RUndefined.

Definition ice (candidate : value) : M completion :=
  if truthy candidate then
    the_connection ;;
    log (CAddIceCandidate candidate) ;;
    ret RUndefined
  else ret RUndefined.

(** The loop of [local]: [remaining] is [l - i]. *)
Fixpoint apply_codecs (cs : list Codec) (remaining i : nat) (text : string)
  : result string :=
  match remaining with
  | O => Ok text
  | S remaining' =>
      match cs !! i with
      | Some f =>
          match f text with
          | Ok text' => apply_codecs cs remaining' (S i) text'
          | Throw e => Throw e
          end
      | None => Throw TypeError
      end
  end.

(** [local] writes the new text into the description it was given; the
    updated description is returned for the caller, who still holds it. *)
Definition local (session : Session) : M Session :=
  fun p =>
    (text <- lift (apply_codecs (codecs p) (length (codecs p)) 0 (sdp session)) ;;
     let session' := with_sdp session text in
     the_connection ;;
     log (CSetLocalDescription session') ;;
     ret session') p.

Definition remote (session : Session) : M completion :=
  the_connection ;;
  log (CSetRemoteDescription session) ;;
  ret RUndefined.

(** [createOffer] or [createAnswer], as [session] picks it. *)
Definition handler (ty : string) (opts : value) : call :=
  if (ty =? "offer")%string then CCreateOffer opts else CCreateAnswer opts.

Definition session (fn opts : value) (ty : string) : M completion :=
  emit (String.append "before " ty) [] ;;
  c <- the_connection ;;
  log (handler ty opts) ;;
  modify (set_connection (Some (add_request (fn, ty) c))) ;;
  ret RUndefined.

(** What a caller's function does with the description it is called
    with: it returns, having left the description as given back here (it
    holds the very object and may write to it), or it raises. *)
Definition Callback : Type := Session -> result Session.

(** A function that returns without touching the description. *)
Definition returns : Callback := fun offer => Ok offer.

(** [fn(offer)]: calling what is not a function is a TypeError; the body of
    a function is the caller's. *)
Definition invoke (fn : value) (body : Callback) (offer : Session) : M Session :=
  match fn with
  | VFun f => log (CCall f [session_value offer]) ;; lift (body offer)
  | _ => throw TypeError
  end.

(** The success callback of [session].  [local], [fn] and [queue] are all
    handed the same description object: [queue] sees it as [fn] left it,
    and is not reached when [fn] raises. *)
Definition session_success (fn : value) (ty : string) (body : Callback)
    (offer : Session) : M unit :=
  offer' <- local offer ;;
  offer'' <- (if truthy fn then invoke fn body offer' else ret offer') ;;
  queue ty [session_value offer''].

(** The failure callback of [session]. *)
Definition session_failure (e : value) : M unit :=
  emit "error" [e].

(** [this.connection.createDataChannel(label)]: the call, and the raw
    channel the transport hands back. *)
Definition createDataChannel (label : string) : M value :=
  the_connection ;;
  log (CCreateDataChannel label) ;;
  ret (VObj [("label", VStr label)]).

Definition offer (fn opts : value) : M completion :=
  rawchannel <- createDataChannel "master" ;;
  b <- lib_channel rawchannel ;;
  modify (set_channel (Some b)) ;;
  session fn opts "offer".

(** The callback [answer] installs. *)
Definition on_datachannel (event : value) : M unit :=
  rawchannel <- lift (get event "channel") ;;
  b <- lib_channel rawchannel ;;
  modify (set_channel (Some b)).

Definition answer (fn opts : value) : M completion :=
  c <- the_connection ;;
  modify (set_connection (Some (set_ondatachannel c))) ;;
  session fn opts "answer".

Definition codec (fn : Codec) : M completion :=
  fun p => (Ok RThis, set_codecs (codecs p ++ [fn]) p).

Definition send (msg : value) : M completion :=
  queue "channel message" [msg] ;;
  ret RThis.

(** ** The session as a transition system

    What can happen to a peer: its owner calls a method, or the transport
    fires a callback.  A callback slot that was never set is not called; the
    outcome of a request goes to the closures that request registered.  When
    a description arrives, [body] is what the caller's [fn] does if the
    success callback calls it. *)

Inductive input : Type :=
| Create
| Stream (s : value)
| Ice (candidate : value)
| Remote (s : Session)
| Offer (fn opts : value)
| Answer (fn opts : value)
| RegisterCodec (fn : Codec)
| Send (msg : value)
| AddStreamEvent (event : value)
| IceCandidateEvent (event : value)
| GatheringChangeEvent (event : value)
| DataChannelEvent (event : value)
| Success (n : nat) (offer : Session) (body : Callback)
| Failure (n : nat) (e : value).

Definition fire (slot : PeerConnection -> bool) (handler : M unit) : M completion :=
  fun p =>
    match connection p with
    | Some c => if slot c then (handler ;; ret RUndefined) p else (Ok RUndefined, p)
    | None => (Ok RUndefined, p)
    end.

Definition settle (n : nat) (k : value -> string -> M unit) : M completion :=
  fun p =>
    match connection p with
    | Some c =>
        match requests c !! n with
        | Some (fn, ty) => (k fn ty ;; ret RUndefined) p
        | None => (Ok RUndefined, p)
        end
    | None => (Ok RUndefined, p)
    end.

Definition step (i : input) : M completion :=
  match i with
  | Create => create
  | Stream s => stream s
  | Ice candidate => ice candidate
  | Remote s => remote s
  | Offer fn opts => offer fn opts
  | Answer fn opts => answer fn opts
  | RegisterCodec fn => codec fn
  | Send msg => send msg
  | AddStreamEvent event => fire onaddstream (on_addstream event)
  | IceCandidateEvent event => fire onicecandidate (on_icecandidate event)
  | GatheringChangeEvent event => fire ongatheringchange (on_gatheringchange event)
  | DataChannelEvent event => fire ondatachannel (on_datachannel event)
  | Success n offer body => settle n (fun fn ty => session_success fn ty body offer)
  | Failure n e => settle n (fun _ _ => session_failure e)
  end.

(** An exception ends the call that raised it; the peer lives on. *)
Definition run (ins : list input) (p : Peer) : Peer :=
  fold_left (fun q i => snd (step i q)) ins p.

(** ** The pipeline as a fold *)

(** The description of the pipeline in words: a fold of the stages over the
    text, left to right, the output of a stage being the input of the next;
    a stage that raises ends the fold. *)
Definition feed (acc : result string) (stage : Codec) : result string :=
  match acc with
  | Ok text => stage text
  | Throw e => Throw e
  end.

Definition pipeline_fold (stages : list Codec) (text : string) : result string :=
  fold_left feed stages (Ok text).

(** Registering stages one after the other. *)
Definition register (fns : list Codec) (p : Peer) : Peer :=
  run (map RegisterCodec fns) p.

(** The descriptions handed to [setLocalDescription], oldest first. *)
Definition committed (tr : list call) : list Session :=
  omap (fun c => match c with CSetLocalDescription s => Some s | _ => None end) tr.

(** The events handed to [queue], oldest first. *)
Definition queued (tr : list call) : list (string * list value) :=
  omap (fun c => match c with CQueue topic args => Some (topic, args) | _ => None end) tr.

(** ** Counting in a trace *)

Definition is_ready (c : call) : bool :=
  match c with
  | CQueue topic _ => (topic =? "ready")%string
  | _ => false
  end.

(** How many times [queue('ready')] was called. *)
Definition ready_count (tr : list call) : nat := length (List.filter is_ready tr).

(** Does this input tell that gathering is over: a candidate callback whose
    candidate is falsy, or a gathering change whose target reports
    'complete'. *)
Definition signals_complete (i : input) : bool :=
  match i with
  | IceCandidateEvent event =>
      match get event "candidate" with
      | Ok candidate => negb (truthy candidate)
      | Throw _ => false
      end
  | GatheringChangeEvent event =>
      match get event "currentTarget" with
      | Ok target =>
          truthy target &&
          match get target "iceGatheringState" with
          | Ok state => strict_eq_str state "complete"
          | Throw _ => false
          end
      | Throw _ => false
      end
  | _ => false
  end.

(** The raw channels handed to [lib/channel], oldest first: one binding is
    made per call. *)
Definition bindings (tr : list call) : list value :=
  omap (fun c => match c with CChannel rawchannel => Some rawchannel | _ => None end) tr.

(** The labels given to [createDataChannel], oldest first. *)
Definition created_channels (tr : list call) : list string :=
  omap (fun c => match c with CCreateDataChannel label => Some label | _ => None end) tr.

(** The callbacks of [create] are in place, and every pending request was
    made by [offer] or [answer]. *)
Definition gathering (p : Peer) : Prop :=
  match connection p with
  | Some c =>
      onicecandidate c = true /\ ongatheringchange c = true /\
      Forall (fun r => snd r = "offer" \/ snd r = "answer") (requests c)
  | None => False
  end.

(** ** Sample data *)

Definition addBandwidthCap : Codec := pure_codec (fun text => String.append text "b=AS:64;").
Definition preferCodecOpus : Codec := pure_codec (fun text => String.append "opus;" text).

Definition sample_offer : Session := {| type := "offer"; sdp := "m=audio;" |}.

(** Two ill-behaved callbacks: one raises, one rewrites the description. *)
Definition raising_fn : Callback := fun _ => Throw (VStr "boom").
Definition rewriting_fn : Callback :=
  fun offer => Ok {| type := type offer; sdp := "v=0;" |}.

Definition end_of_candidates : value := VObj [("candidate", VNull)].
Definition gathering_complete : value :=
  VObj [("currentTarget", VObj [("iceGatheringState", VStr "complete")])].
Definition host_candidate : value := VObj [("candidate", VStr "candidate:1 1 UDP 1 10.0.0.1 5000 typ host")].
Definition candidate_event : value := VObj [("candidate", host_candidate)].
Definition master : value := VObj [("label", VStr "master")].
Definition channel_event : value := VObj [("channel", master)].

Definition created_peer : Peer := run [Create] (new_Peer {| servers := VNull |}).

Definition initiator : Peer :=
  run [RegisterCodec addBandwidthCap; RegisterCodec preferCodecOpus; Offer (VFun 0) VUndefined]
      created_peer.

Definition responder : Peer := run [Answer VUndefined VUndefined] created_peer.

(** ** The event bus *)

(** Who receives an event: the sender of a bound data channel, or a
    listener of the application. *)
Inductive observer : Type :=
| ChannelSender (rawchannel : value)
| Listener (id : nat).

Record Bus : Type := {
  subscribers : list (string * observer);
  pendingQueue : list (string * list value);
  deliveries : list (observer * string * list value)
}.

Definition empty_bus : Bus :=
  {| subscribers := []; pendingQueue := []; deliveries := [] |}.

Definition on_topic {A} (topic : string) (entries : list (string * A)) : list A :=
  List.map snd (List.filter (fun e => (fst e =? topic)%string) entries).

(** Modelled from the spec: the emitter is not among the sources.  An event
    is delivered at once to every observer subscribed to its kind, in the
    order they subscribed. *)
Definition bus_emit (topic : string) (args : list value) (b : Bus) : Bus :=
  {| subscribers := subscribers b;
     pendingQueue := pendingQueue b;
     deliveries := deliveries b
                   ++ List.map (fun o => (o, topic, args)) (on_topic topic (subscribers b)) |}.

(** Modelled from the spec: the queue companion of the emitter is not among
    the sources.  A queued event is emitted at once and also retained in
    the pending queue, in order of occurrence. *)
Definition bus_queue (topic : string) (args : list value) (b : Bus) : Bus :=
  let b' := bus_emit topic args b in
  {| subscribers := subscribers b';
     pendingQueue := pendingQueue b' ++ [(topic, args)];
     deliveries := deliveries b' |}.

(** Modelled from the spec: subscription with the replay contract of the
    queue companion, not among the sources.  A new observer is first given
    the whole backlog of its kind, in the original order, then receives
    live events. *)
Definition bus_subscribe (topic : string) (o : observer) (b : Bus) : Bus :=
  {| subscribers := subscribers b ++ [(topic, o)];
     pendingQueue := pendingQueue b;
     deliveries := deliveries b
                   ++ List.map (fun args => (o, topic, args)) (on_topic topic (pendingQueue b)) |}.

(** Modelled from the spec: [lib/channel] is not among the sources.  Binding
    a raw channel subscribes its sender to 'channel message', so that a
    message queued by [send] is delivered once a channel exists.  The other
    calls of the trace are [emit] and [queue] themselves, or do not touch
    the bus. *)
Definition bus_step (b : Bus) (c : call) : Bus :=
  match c with
  | CEmit topic args => bus_emit topic args b
  | CQueue topic args => bus_queue topic args b
  | CChannel rawchannel => bus_subscribe "channel message" (ChannelSender rawchannel) b
  | _ => b
  end.

(** The bus after the calls of a trace. *)
Definition deliver (tr : list call) : Bus := fold_left bus_step tr empty_bus.

(** ** What a run of inputs is expected to leave in the trace *)

(** A method called by the owner of the peer, as opposed to a callback
    fired by the transport. *)
Definition is_call (i : input) : bool :=
  match i with
  | Create | Stream _ | Ice _ | Remote _ | Offer _ _ | Answer _ _
  | RegisterCodec _ | Send _ => true
  | _ => false
  end.

Definition is_failure (i : input) : bool :=
  match i with
  | Failure _ _ => true
  | _ => false
  end.

(** The peer has a connection: [create] has run. *)
Definition created (p : Peer) : Prop := connection p <> None.

Definition codec_of (i : input) : list Codec :=
  match i with
  | RegisterCodec fn => [fn]
  | _ => []
  end.

Definition remote_of (i : input) : list Session :=
  match i with
  | Remote s => [s]
  | _ => []
  end.

Definition channel_of (i : input) : list string :=
  match i with
  | Offer _ _ => ["master"]
  | _ => []
  end.

(** The candidate a candidate callback relays, if it relays one. *)
Definition candidate_of (i : input) : list (list value) :=
  match i with
  | IceCandidateEvent event =>
      match get event "candidate" with
      | Ok candidate => if truthy candidate then [[candidate; event]] else []
      | Throw _ => []
      end
  | _ => []
  end.

(** The descriptions handed to [setRemoteDescription], oldest first. *)
Definition remotes (tr : list call) : list Session :=
  omap (fun c => match c with CSetRemoteDescription s => Some s | _ => None end) tr.

(** The arguments of the 'error' events emitted, oldest first. *)
Definition errors (tr : list call) : list (list value) :=
  omap (fun c => match c with
                 | CEmit topic args => if (topic =? "error")%string then Some args else None
                 | _ => None
                 end) tr.

(** The arguments of the 'candidate' events emitted, oldest first. *)
Definition candidates (tr : list call) : list (list value) :=
  omap (fun c => match c with
                 | CEmit topic args => if (topic =? "candidate")%string then Some args else None
                 | _ => None
                 end) tr.

(** The kinds of event the code hands to [queue]. *)
Definition queued_kinds : list string :=
  ["ready"; "offer"; "answer"; "local stream"; "channel message"].

Definition raising_codec : Codec := fun _ => Throw (VStr "bad sdp").

Definition sample_answer : Session := {| type := "answer"; sdp := "m=audio;" |}.

Definition is_create (i : input) : bool :=
  match i with
  | Create => true
  | _ => false
  end.

Definition is_answer (i : input) : bool :=
  match i with
  | Answer _ _ => true
  | _ => false
  end.

(** What [send] leaves in the trace. *)
Definition message_of (i : input) : list call :=
  match i with
  | Send msg => [CQueue "channel message" [msg]]
  | _ => []
  end.

(** The raw channel an [offer] binds. *)
Definition binding_of (i : input) : list value :=
  match i with
  | Offer _ _ => [master]
  | _ => []
  end.

(** The peer has a connection whose [ondatachannel] slot is empty. *)
Definition deaf_to_channels (p : Peer) : Prop :=
  match connection p with
  | Some c => ondatachannel c = false
  | None => False
  end.

Definition is_success (i : input) : bool :=
  match i with
  | Success _ _ _ => true
  | _ => false
  end.

(** The candidate [ice] passes on, if it passes one. *)
Definition ice_of (i : input) : list value :=
  match i with
  | Ice candidate => if truthy candidate then [candidate] else []
  | _ => []
  end.

(** The request a call of [offer] or [answer] makes to the transport. *)
Definition request_of (i : input) : list call :=
  match i with
  | Offer _ opts => [CCreateOffer opts]
  | Answer _ opts => [CCreateAnswer opts]
  | _ => []
  end.

Definition stream_of (i : input) : list value :=
  match i with
  | Stream s => [s]
  | _ => []
  end.

(** The stream the [onaddstream] callback relays. *)
Definition remote_stream_of (i : input) : list (list value) :=
  match i with
  | AddStreamEvent event =>
      match get event "stream" with
      | Ok s => [[s]]
      | Throw _ => []
      end
  | _ => []
  end.

(** The candidates handed to [addIceCandidate], oldest first. *)
Definition added_candidates (tr : list call) : list value :=
  omap (fun c => match c with CAddIceCandidate init => Some init | _ => None end) tr.

(** The calls of [createOffer] and [createAnswer], oldest first. *)
Definition requested (tr : list call) : list call :=
  omap (fun c => match c with
                 | CCreateOffer _ | CCreateAnswer _ => Some c
                 | _ => None
                 end) tr.

(** The streams handed to [addStream], oldest first. *)
Definition added_streams (tr : list call) : list value :=
  omap (fun c => match c with CAddStream s => Some s | _ => None end) tr.

(** The arguments of the 'local stream' events queued, oldest first. *)
Definition local_streams (tr : list call) : list (list value) :=
  omap (fun c => match c with
                 | CQueue topic args =>
                     if (topic =? "local stream")%string then Some args else None
                 | _ => None
                 end) tr.

(** The arguments of the 'remote stream' events emitted, oldest first. *)
Definition remote_streams (tr : list call) : list (list value) :=
  omap (fun c => match c with
                 | CEmit topic args =>
                     if (topic =? "remote stream")%string then Some args else None
                 | _ => None
                 end) tr.

(** The peer has a connection whose [onaddstream] slot is set, and every
    pending request was made by [offer] or [answer]. *)
Definition listening (p : Peer) : Prop :=
  match connection p with
  | Some c =>
      onaddstream c = true /\
      Forall (fun r => snd r = "offer" \/ snd r = "answer") (requests c)
  | None => False
  end.

(** * Properties *)

Lemma feed_throw stages e : fold_left feed stages (Throw e) = Throw e.
Proof. induction stages as [|f stages IH]; simpl; auto. Qed.

Lemma apply_codecs_from done stages text :
  apply_codecs (done ++ stages) (length stages) (length done) text
  = pipeline_fold stages text.
Proof.
  revert done text.
  induction stages as [|f stages IH]; intros done text; simpl; [reflexivity|].
  rewrite list_lookup_middle by reflexivity.
  unfold pipeline_fold; simpl.
  destruct (f text) as [text'|e]; [|now rewrite feed_throw].
  specialize (IH (done ++ [f]) text').
  rewrite <- app_assoc, length_app in IH; simpl in IH.
  rewrite Nat.add_1_r in IH. exact IH.
Qed.

Lemma apply_codecs_fold stages text :
  apply_codecs stages (length stages) 0 text = pipeline_fold stages text.
Proof. exact (apply_codecs_from [] stages text). Qed.

Lemma pipeline_fold_pure gs text :
  pipeline_fold (map pure_codec gs) text = Ok (fold_left (fun t g => g t) gs text).
Proof.
  revert text; induction gs as [|g gs IH]; intros text; [reflexivity|].
  unfold pipeline_fold in *; simpl. apply IH.
Qed.

Lemma register_codecs fns p :
  register fns p = set_codecs (codecs p ++ fns) p.
Proof.
  unfold register, run. revert p.
  induction fns as [|f fns IH]; intros p; simpl.
  - rewrite app_nil_r. now destruct p.
  - rewrite IH. unfold set_codecs; simpl. now rewrite <- app_assoc.
Qed.

(** What [local] does, with the loop read as a fold. *)
Lemma local_spec s p :
  local s p =
  match pipeline_fold (codecs p) (sdp s) with
  | Throw e => (Throw e, p)
  | Ok text =>
      match connection p with
      | None => (Throw TypeError, p)
      | Some _ => (Ok (with_sdp s text),
                   add_trace [CSetLocalDescription (with_sdp s text)] p)
      end
  end.
Proof.
  unfold local, bind, lift, the_connection, log, ret.
  rewrite apply_codecs_fold.
  destruct (pipeline_fold (codecs p) (sdp s)); [|reflexivity].
  destruct (connection p); reflexivity.
Qed.

(** Case analysis on what [if (fn)] sees. *)
Ltac case_value v :=
  let b := fresh "b" in let n := fresh "n" in let t := fresh "t" in
  destruct v as [| |b|n|t|?|?]; simpl;
  [ | |destruct b|destruct (n =? 0)%Z|destruct (t =? "")%string| | ]; simpl.

(** The same, followed by what the body of the function does. *)
Ltac case_fn v :=
  case_value v;
  repeat match goal with
         | body : Callback |- context [match ?b ?x with _ => _ end] =>
             constr_eq b body; destruct (body x); simpl
         end.

(** What the success callback of [session] does. *)
Lemma session_success_spec fn ty body s p :
  session_success fn ty body s p =
  match pipeline_fold (codecs p) (sdp s), connection p with
  | Throw e, _ => (Throw e, p)
  | Ok _, None => (Throw TypeError, p)
  | Ok text, Some _ =>
      let s' := {| type := type s; sdp := text |} in
      let p1 := add_trace [CSetLocalDescription s'] p in
      if truthy fn then
        match fn with
        | VFun f =>
            match body s' with
            | Ok s'' => (Ok tt, add_trace [CQueue ty [session_value s'']]
                                  (add_trace [CCall f [session_value s']] p1))
            | Throw e => (Throw e, add_trace [CCall f [session_value s']] p1)
            end
        | _ => (Throw TypeError, p1)
        end
      else (Ok tt, add_trace [CQueue ty [session_value s']] p1)
  end.
Proof.
  unfold session_success, bind at 1. rewrite local_spec.
  destruct (pipeline_fold (codecs p) (sdp s)) as [text|e]; [|reflexivity].
  destruct (connection p); [|reflexivity].
  unfold bind, with_sdp, lift; case_fn fn; reflexivity.
Qed.

Lemma add_trace_trace cs p : trace (add_trace cs p) = trace p ++ cs.
Proof. reflexivity. Qed.

Lemma committed_app tr1 tr2 : committed (tr1 ++ tr2) = committed tr1 ++ committed tr2.
Proof. apply omap_app. Qed.

(** C2: the stages registered with [codec] are kept in registration order;
    the loop of [local] over them is the left fold of the stages over the
    text, each output feeding the next stage (for stages that never raise,
    the plain fold of the functions); and the success callback of [session],
    whatever the type, offer or answer, and whatever [fn] does, hands
    [setLocalDescription] one description: the one it was given, with the
    folded text as its sdp.  When a stage raises, or there is no
    connection, nothing is committed. *)
Theorem codec_pipeline_is_left_fold (p : Peer) (fns : list Codec) (fn : value)
    (ty : string) (body : Callback) (s : Session) :
  let p' := register fns p in
  codecs p' = codecs p ++ fns
  /\ apply_codecs (codecs p') (length (codecs p')) 0 (sdp s)
     = pipeline_fold (codecs p ++ fns) (sdp s)
  /\ (forall (gs : list (string -> string)) (text : string),
        apply_codecs (map pure_codec gs) (length (map pure_codec gs)) 0 text
        = Ok (fold_left (fun t g => g t) gs text))
  /\ committed (trace (snd (session_success fn ty body s p')))
     = committed (trace p') ++
       match pipeline_fold (codecs p ++ fns) (sdp s), connection p' with
       | Ok text, Some _ => [{| type := type s; sdp := text |}]
       | _, _ => []
       end
  /\ List.map sdp (committed (trace (snd (session_success fn ty body s p'))))
     = List.map sdp (committed (trace p')) ++
       match apply_codecs (codecs p ++ fns) (length (codecs p ++ fns)) 0 (sdp s),
             connection p' with
       | Ok text, Some _ => [text]
       | _, _ => []
       end.
Proof.
  intros p'. subst p'. rewrite register_codecs. simpl.
  split; [reflexivity|]. split; [apply apply_codecs_fold|].
  split; [intros gs text; rewrite apply_codecs_fold; apply pipeline_fold_pure|].
  rewrite session_success_spec, apply_codecs_fold. simpl.
  destruct (pipeline_fold (codecs p ++ fns) (sdp s)) as [text|e];
    [|now rewrite !app_nil_r].
  destruct (connection p); [|now rewrite !app_nil_r].
  case_fn fn;
    rewrite ?committed_app; simpl; rewrite ?app_nil_r, ?List.map_app; simpl;
    rewrite ?app_nil_r; split; reflexivity.
Qed.

(** C2 at work: two codecs registered on a created peer, then [offer]; the
    description that arrives is committed with both applied, in the order
    of registration, and so is an answer on a responder. *)
Lemma codec_pipeline_is_left_fold_witness :
  codecs (register [addBandwidthCap; preferCodecOpus] created_peer)
  = [addBandwidthCap; preferCodecOpus]
  /\ committed (trace (snd (session_success (VFun 0) "offer" rewriting_fn sample_offer
                              (register [addBandwidthCap; preferCodecOpus] created_peer))))
     = [{| type := "offer"; sdp := "opus;m=audio;b=AS:64;" |}]
  /\ List.map sdp
       (committed (trace (snd (session_success VUndefined "answer" returns
                                 {| type := "answer"; sdp := "m=audio;" |}
                                 (register [addBandwidthCap; preferCodecOpus]
                                           created_peer)))))
     = ["opus;m=audio;b=AS:64;"].
Proof.
  split; [|split].
  - exact (proj1 (codec_pipeline_is_left_fold created_peer
                    [addBandwidthCap; preferCodecOpus] (VFun 0) "offer" rewriting_fn
                    sample_offer)).
  - exact (proj1 (proj2 (proj2 (proj2
             (codec_pipeline_is_left_fold created_peer
                [addBandwidthCap; preferCodecOpus] (VFun 0) "offer" rewriting_fn
                sample_offer))))).
  - exact (proj2 (proj2 (proj2 (proj2
             (codec_pipeline_is_left_fold created_peer
                [addBandwidthCap; preferCodecOpus] VUndefined "answer" returns
                {| type := "answer"; sdp := "m=audio;" |}))))).
Defined.

Lemma add_trace_twice cs1 cs2 p :
  add_trace cs2 (add_trace cs1 p) = add_trace (cs1 ++ cs2) p.
Proof. unfold add_trace; simpl. now rewrite app_assoc. Qed.

Lemma queued_app tr1 tr2 : queued (tr1 ++ tr2) = queued tr1 ++ queued tr2.
Proof. apply omap_app. Qed.

(** What [session] does on a peer that has a connection. *)
Lemma session_spec fn opts ty p c :
  connection p = Some c ->
  session fn opts ty p =
  (Ok RUndefined,
   set_connection (Some (add_request (fn, ty) c))
     (add_trace [CEmit (String.append "before " ty) []; handler ty opts] p)).
Proof.
  intros Hc. unfold session, bind, emit, log, the_connection, modify, ret. simpl.
  rewrite Hc. unfold set_connection, add_trace; simpl.
  now rewrite <- app_assoc.
Qed.

Lemma step_success p c n fn ty s body :
  connection p = Some c ->
  requests c !! n = Some (fn, ty) ->
  step (Success n s body) p =
  match session_success fn ty body s p with
  | (Ok _, q) => (Ok RUndefined, q)
  | (Throw e, q) => (Throw e, q)
  end.
Proof. intros Hc Hn. simpl. unfold settle. now rewrite Hc, Hn. Qed.

(** C4: when the transport hands a description to the success callback of
    a pending request, its text is folded through the pipeline first; the
    description with the folded text is then given to [setLocalDescription],
    and it is the only one committed; only after that call is the caller's
    [fn] invoked, if there is one, with that description; and the [type]
    event is queued last, carrying the description as [fn] left it.  When
    [fn] raises, or is truthy but no function, the exception leaves the
    callback after the commit and nothing is queued; when a stage raises,
    nothing is committed, invoked or queued.  In no case does anything
    precede the commit. *)
Theorem success_transforms_commits_then_notifies
    (p : Peer) (c : PeerConnection) (n : nat) (fn : value) (ty : string)
    (s : Session) (body : Callback) :
  connection p = Some c ->
  requests c !! n = Some (fn, ty) ->
  match pipeline_fold (codecs p) (sdp s) with
  | Ok text =>
      let s' := {| type := type s; sdp := text |} in
      trace (snd (step (Success n s body) p)) =
      trace p ++ CSetLocalDescription s' ::
        (if truthy fn then
           match fn with
           | VFun f =>
               CCall f [session_value s'] ::
               match body s' with
               | Ok s'' => [CQueue ty [session_value s'']]
               | Throw _ => []
               end
           | _ => []
           end
         else [CQueue ty [session_value s']])
      /\ committed (trace (snd (step (Success n s body) p))) = committed (trace p) ++ [s']
      /\ fst (step (Success n s body) p) =
         (if truthy fn then
            match fn with
            | VFun _ =>
                match body s' with
                | Ok _ => Ok RUndefined
                | Throw e => Throw e
                end
            | _ => Throw TypeError
            end
          else Ok RUndefined)
  | Throw e => step (Success n s body) p = (Throw e, p)
  end.
Proof.
  intros Hc Hn. rewrite (step_success p c n fn ty s body Hc Hn).
  rewrite session_success_spec, Hc.
  destruct (pipeline_fold (codecs p) (sdp s)) as [text|e]; [|reflexivity].
  case_fn fn; rewrite <- ?app_assoc;
    rewrite ?committed_app; simpl; rewrite ?app_nil_r; repeat split; reflexivity.
Qed.

(** C5: when the transport reports the failure of a pending request, the
    failure callback returns normally after emitting one 'error' event that
    carries the cause; the connection, the codecs and the channel are as
    before, nothing is committed and nothing is queued; and the same call
    can be made again: [session] then emits 'before <type>' and asks the
    transport for a description once more. *)
Theorem failure_emits_error_and_keeps_state
    (p : Peer) (c : PeerConnection) (n : nat) (fn : value) (ty : string) (e : value) :
  connection p = Some c ->
  requests c !! n = Some (fn, ty) ->
  let p' := snd (step (Failure n e) p) in
  step (Failure n e) p = (Ok RUndefined, add_trace [CEmit "error" [e]] p)
  /\ connection p' = connection p /\ codecs p' = codecs p /\ channel p' = channel p
  /\ committed (trace p') = committed (trace p)
  /\ queued (trace p') = queued (trace p)
  /\ forall fn' opts,
       fst (session fn' opts ty p') = Ok RUndefined
       /\ trace (snd (session fn' opts ty p'))
          = trace p' ++ [CEmit (String.append "before " ty) []; handler ty opts].
Proof.
  intros Hc Hn p'.
  assert (Hstep : step (Failure n e) p = (Ok RUndefined, add_trace [CEmit "error" [e]] p)).
  { simpl. unfold settle. now rewrite Hc, Hn. }
  subst p'. rewrite Hstep. simpl.
  repeat split; try reflexivity.
  - rewrite committed_app. simpl. apply app_nil_r.
  - rewrite queued_app. simpl. apply app_nil_r.
  - now rewrite (session_spec fn' opts ty _ c).
  - now rewrite (session_spec fn' opts ty _ c).
Qed.

(** ** Worked examples *)

Example pipeline_scenario :
  apply_codecs [addBandwidthCap; preferCodecOpus] 2 0 "m=audio;" = Ok "opus;m=audio;b=AS:64;".
Proof. reflexivity. Qed.

Example initiator_trace :
  trace initiator =
  [CNewPeerConnection VNull; CEmit "create" [];
   CCreateDataChannel "master"; CChannel master;
   CEmit "before offer" []; CCreateOffer VUndefined].
Proof. reflexivity. Qed.

Example offer_without_create :
  offer VUndefined VUndefined (new_Peer {| servers := VNull |})
  = (Throw TypeError, new_Peer {| servers := VNull |}).
Proof. reflexivity. Qed.

Lemma success_transforms_commits_then_notifies_witness :
  connection initiator
    = Some {| onaddstream := true; onicecandidate := true; ongatheringchange := true;
              ondatachannel := false; requests := [(VFun 0, "offer")] |}
  /\ trace (snd (step (Success 0 sample_offer returns) initiator)) =
     trace initiator ++
     [CSetLocalDescription {| type := "offer"; sdp := "opus;m=audio;b=AS:64;" |};
      CCall 0 [session_value {| type := "offer"; sdp := "opus;m=audio;b=AS:64;" |}];
      CQueue "offer" [session_value {| type := "offer"; sdp := "opus;m=audio;b=AS:64;" |}]]
  /\ trace (snd (step (Success 0 sample_offer rewriting_fn) initiator)) =
     trace initiator ++
     [CSetLocalDescription {| type := "offer"; sdp := "opus;m=audio;b=AS:64;" |};
      CCall 0 [session_value {| type := "offer"; sdp := "opus;m=audio;b=AS:64;" |}];
      CQueue "offer" [session_value {| type := "offer"; sdp := "v=0;" |}]]
  /\ trace (snd (step (Success 0 sample_offer raising_fn) initiator)) =
     trace initiator ++
     [CSetLocalDescription {| type := "offer"; sdp := "opus;m=audio;b=AS:64;" |};
      CCall 0 [session_value {| type := "offer"; sdp := "opus;m=audio;b=AS:64;" |}]]
  /\ fst (step (Success 0 sample_offer raising_fn) initiator) = Throw (VStr "boom").
Proof.
  split; [reflexivity|]. split; [|split; [|split]].
  - exact (proj1 (success_transforms_commits_then_notifies initiator _ 0 (VFun 0) "offer"
                    sample_offer returns eq_refl eq_refl)).
  - exact (proj1 (success_transforms_commits_then_notifies initiator _ 0 (VFun 0) "offer"
                    sample_offer rewriting_fn eq_refl eq_refl)).
  - exact (proj1 (success_transforms_commits_then_notifies initiator _ 0 (VFun 0) "offer"
                    sample_offer raising_fn eq_refl eq_refl)).
  - exact (proj2 (proj2 (success_transforms_commits_then_notifies initiator _ 0 (VFun 0)
                           "offer" sample_offer raising_fn eq_refl eq_refl))).
Defined.

Lemma failure_emits_error_and_keeps_state_witness :
  step (Failure 0 (VStr "InvalidStateError")) initiator
  = (Ok RUndefined, add_trace [CEmit "error" [VStr "InvalidStateError"]] initiator).
Proof.
  exact (proj1 (failure_emits_error_and_keeps_state initiator _ 0 (VFun 0) "offer"
                  (VStr "InvalidStateError") eq_refl eq_refl)).
Defined.

(** ** Gathering completion *)

Lemma ready_count_app tr1 tr2 :
  ready_count (tr1 ++ tr2) = ready_count tr1 + ready_count tr2.
Proof. unfold ready_count. now rewrite List.filter_app, List.length_app. Qed.

Ltac unfold_methods :=
  unfold create, stream, ice, remote, offer, answer, codec, send, session,
    createDataChannel, handler,
    fire, settle, on_addstream, on_icecandidate, on_gatheringchange,
    on_datachannel, session_failure, lib_channel, invoke,
    emit, queue, log, modify, the_connection, lift, bind, ret, throw.

Ltac case_matches :=
  repeat match goal with
         | |- context [match ?x with _ => _ end] =>
             lazymatch x with
             | context [match _ with _ => _ end] => fail
             | _ => destruct x eqn:?; simpl
             end
         end.

Ltac count_ready :=
  rewrite ?ready_count_app; unfold ready_count; simpl; repeat split; auto;
  try (apply Forall_app; split; auto); try lia.

Lemma step_ready i p :
  gathering p ->
  gathering (snd (step i p))
  /\ ready_count (trace (snd (step i p)))
     = ready_count (trace p) + (if signals_complete i then 1 else 0).
Proof.
  destruct p as [conn k cs ch tr]. unfold gathering; simpl.
  destruct conn as [[s1 s2 s3 s4 reqs]|]; [|contradiction].
  simpl. intros (-> & -> & Hreq).
  destruct i; unfold step, signals_complete, gathering.
  13: { (* the success callback: the type queued is 'offer' or 'answer' *)
    unfold settle; simpl.
    destruct (reqs !! n) as [[fn ty]|] eqn:Hn; simpl; [|count_ready].
    pose proof (Forall_lookup_1 _ _ _ _ Hreq Hn) as Hty; simpl in Hty.
    unfold bind. rewrite !session_success_spec; simpl.
    destruct (pipeline_fold cs (sdp offer0)); simpl; [|count_ready].
    destruct Hty as [-> | ->]; case_fn fn; count_ready. }
  all: unfold_methods; simpl; case_matches; count_ready.
Qed.

Lemma run_ready ins p :
  gathering p ->
  gathering (run ins p)
  /\ ready_count (trace (run ins p))
     = ready_count (trace p) + length (List.filter signals_complete ins).
Proof.
  revert p. induction ins as [|i ins IH]; intros p G.
  - simpl. split; [exact G|lia].
  - change (run (i :: ins) p) with (run ins (snd (step i p))).
    destruct (step_ready i p G) as [G' Hi].
    destruct (IH _ G') as [G'' Hins].
    split; [exact G''|].
    rewrite Hins, Hi. simpl.
    destruct (signals_complete i); simpl; lia.
Qed.

(** C1, as the code has it: every completion signal, whether a candidate
    callback with a falsy candidate or a gathering change whose target
    reports 'complete', calls [queue('ready')] once more; over any sequence
    of method calls and transport callbacks on a created peer, 'ready' is
    queued as many times as completion signals arrived. *)
Theorem ready_queued_once_per_completion_signal (ins : list input) (p : Peer) :
  gathering p ->
  ready_count (trace (run ins p))
  = ready_count (trace p) + length (List.filter signals_complete ins).
Proof. intros G. exact (proj2 (run_ready ins p G)). Qed.

Lemma gathering_created_peer : gathering created_peer.
Proof. unfold gathering; simpl. repeat split; constructor. Qed.

Lemma ready_queued_once_per_completion_signal_witness :
  gathering created_peer
  /\ ready_count (trace (run [Offer VUndefined VUndefined; Success 0 sample_offer returns;
                              IceCandidateEvent candidate_event;
                              IceCandidateEvent candidate_event;
                              IceCandidateEvent end_of_candidates] created_peer)) = 1.
Proof.
  split; [exact gathering_created_peer|].
  exact (ready_queued_once_per_completion_signal
           [Offer VUndefined VUndefined; Success 0 sample_offer returns;
            IceCandidateEvent candidate_event; IceCandidateEvent candidate_event;
            IceCandidateEvent end_of_candidates] created_peer gathering_created_peer).
Defined.

(** C1 fails as stated: a null candidate followed by a gathering change to
    'complete' queues 'ready' twice, and the second signal is not a no-op. *)
Lemma ready_queued_twice_by_both_signals :
  let once := run [IceCandidateEvent end_of_candidates] created_peer in
  let both := run [IceCandidateEvent end_of_candidates;
                   GatheringChangeEvent gathering_complete] created_peer in
  ready_count (trace once) = 1
  /\ ready_count (trace both) = 2
  /\ ready_count (trace both) <> 1
  /\ trace both = trace once ++ [CQueue "ready" []].
Proof. repeat split; [discriminate]. Qed.

(** ** Offer, answer and the data channel *)

Lemma offer_spec fn opts p c :
  connection p = Some c ->
  offer fn opts p =
  (Ok RUndefined,
   set_connection (Some (add_request (fn, "offer") c))
     (set_channel (Some {| raw := master |})
        (add_trace [CCreateDataChannel "master"; CChannel master;
                    CEmit "before offer" []; CCreateOffer opts] p))).
Proof.
  destruct p as [conn k cs ch tr]; simpl. intros ->.
  unfold_methods; simpl. unfold set_connection, set_channel, add_trace; simpl.
  now rewrite <- !app_assoc.
Qed.

Lemma answer_spec fn opts p c :
  connection p = Some c ->
  answer fn opts p =
  (Ok RUndefined,
   set_connection (Some (add_request (fn, "answer") (set_ondatachannel c)))
     (add_trace [CEmit "before answer" []; CCreateAnswer opts] p)).
Proof.
  destruct p as [conn k cs ch tr]; simpl. intros ->.
  unfold_methods; simpl. unfold set_connection, add_trace; simpl.
  now rewrite <- !app_assoc.
Qed.

(** C3, as the code has it: the peer keeps no role.  On a peer with a
    connection, after [offer] or after [answer] has been called, a call of
    [answer] returns normally, sets the [ondatachannel] callback, emits
    'before answer', asks the transport for an answer and leaves its
    closures pending, the channel binding being as before; a call of
    [offer] returns normally, creates another 'master' channel and puts its
    binding in the place of the peer's, emits 'before offer', asks the
    transport for an offer and leaves its closures pending. *)
Theorem second_negotiation_call_is_accepted
    (p : Peer) (c : PeerConnection) (fn1 opts1 fn2 opts2 : value) (q : Peer) :
  connection p = Some c ->
  q = snd (offer fn1 opts1 p) \/ q = snd (answer fn1 opts1 p) ->
  exists cq,
    connection q = Some cq
    /\ (requests cq = requests c ++ [(fn1, "offer")]
        \/ requests cq = requests c ++ [(fn1, "answer")])
    /\ (fst (answer fn2 opts2 q) = Ok RUndefined
        /\ trace (snd (answer fn2 opts2 q))
           = trace q ++ [CEmit "before answer" []; CCreateAnswer opts2]
        /\ channel (snd (answer fn2 opts2 q)) = channel q
        /\ exists c',
             connection (snd (answer fn2 opts2 q)) = Some c'
             /\ ondatachannel c' = true
             /\ requests c' = requests cq ++ [(fn2, "answer")])
    /\ (fst (offer fn2 opts2 q) = Ok RUndefined
        /\ trace (snd (offer fn2 opts2 q))
           = trace q ++ [CCreateDataChannel "master"; CChannel master;
                         CEmit "before offer" []; CCreateOffer opts2]
        /\ channel (snd (offer fn2 opts2 q)) = Some {| raw := master |}
        /\ exists c',
             connection (snd (offer fn2 opts2 q)) = Some c'
             /\ ondatachannel c' = ondatachannel cq
             /\ requests c' = requests cq ++ [(fn2, "offer")]).
Proof.
  intros Hc Hq.
  assert (exists cq, connection q = Some cq
            /\ (requests cq = requests c ++ [(fn1, "offer")]
                \/ requests cq = requests c ++ [(fn1, "answer")])) as (cq & Hcq & Hreq).
  { destruct Hq as [-> | ->];
      [rewrite (offer_spec _ _ _ _ Hc)|rewrite (answer_spec _ _ _ _ Hc)];
      simpl; eexists; split; try reflexivity; simpl; auto. }
  exists cq. split; [exact Hcq|]. split; [exact Hreq|].
  rewrite (answer_spec fn2 opts2 q cq Hcq), (offer_spec fn2 opts2 q cq Hcq).
  simpl. repeat split; eexists; repeat split.
Qed.

Lemma second_negotiation_call_is_accepted_witness :
  connection created_peer = Some fresh_connection
  /\ fst (answer VUndefined VNull initiator) = Ok RUndefined
  /\ trace (snd (answer VUndefined VNull initiator))
     = trace initiator ++ [CEmit "before answer" []; CCreateAnswer VNull]
  /\ connection (snd (answer VUndefined VNull initiator))
     = Some {| onaddstream := true; onicecandidate := true; ongatheringchange := true;
               ondatachannel := true;
               requests := [(VFun 0, "offer"); (VUndefined, "answer")] |}.
Proof.
  split; [reflexivity|].
  destruct (second_negotiation_call_is_accepted
              (run [RegisterCodec addBandwidthCap; RegisterCodec preferCodecOpus]
                   created_peer)
              fresh_connection (VFun 0) VUndefined VUndefined VNull initiator
              eq_refl (or_introl eq_refl))
    as (cq & _ & _ & (Hr & Ht & _) & _).
  split; [exact Hr|]. split; [exact Ht|]. reflexivity.
Defined.

(** C3 fails as stated: [answer] called after [offer] raises nothing and
    changes the peer. *)
Lemma answer_after_offer_is_accepted :
  fst (answer VUndefined VUndefined initiator) = Ok RUndefined
  /\ snd (answer VUndefined VUndefined initiator) <> initiator
  /\ trace (snd (answer VUndefined VUndefined initiator))
     = trace initiator ++ [CEmit "before answer" []; CCreateAnswer VUndefined]
  /\ fst (offer VUndefined VUndefined responder) = Ok RUndefined
  /\ fst (offer VUndefined VUndefined initiator) = Ok RUndefined.
Proof.
  repeat split.
  intros H. apply (f_equal (fun x => length (trace x))) in H. discriminate H.
Qed.

Lemma step_success_binds_nothing n s body q :
  created_channels (trace (snd (step (Success n s body) q))) = created_channels (trace q)
  /\ bindings (trace (snd (step (Success n s body) q))) = bindings (trace q)
  /\ connection (snd (step (Success n s body) q)) = connection q
  /\ channel (snd (step (Success n s body) q)) = channel q.
Proof.
  destruct q as [conn k cs ch tr]. unfold step, settle; simpl.
  destruct conn as [c|]; [|now repeat split].
  destruct (requests c !! n) as [[fn ty]|]; [|now repeat split].
  unfold bind. rewrite !session_success_spec; simpl.
  destruct (pipeline_fold cs (sdp s)); simpl; [|now repeat split].
  unfold created_channels, bindings.
  case_fn fn; rewrite !omap_app; simpl; rewrite ?app_nil_r; now repeat split.
Qed.

(** C6, as the code has it: on a peer with a connection, every call of
    [offer], the first or a later one, creates the 'master' data channel and
    binds it once, before it emits 'before offer' and before [createOffer]
    is called; the binding is stored in the peer.  When the offer arrives,
    the success callback creates and binds no channel and keeps the binding
    stored.  Nothing limits the peer to one [offer]: called again after the
    offer was created, it creates and binds a channel once more. *)
Theorem offer_binds_channel_before_createOffer
    (p : Peer) (c : PeerConnection) (fn opts : value) :
  connection p = Some c ->
  let q := snd (offer fn opts p) in
  fst (offer fn opts p) = Ok RUndefined
  /\ trace q = trace p ++ [CCreateDataChannel "master"; CChannel master;
                           CEmit "before offer" []; CCreateOffer opts]
  /\ channel q = Some {| raw := master |}
  /\ forall n s body,
       let r := snd (step (Success n s body) q) in
       created_channels (trace r) = created_channels (trace p) ++ ["master"]
       /\ bindings (trace r) = bindings (trace p) ++ [master]
       /\ channel r = Some {| raw := master |}
       /\ forall fn' opts',
            fst (offer fn' opts' r) = Ok RUndefined
            /\ trace (snd (offer fn' opts' r))
               = trace r ++ [CCreateDataChannel "master"; CChannel master;
                             CEmit "before offer" []; CCreateOffer opts']
            /\ bindings (trace (snd (offer fn' opts' r)))
               = bindings (trace p) ++ [master; master].
Proof.
  intros Hc q. subst q. rewrite (offer_spec fn opts p c Hc).
  cbn [fst snd]. split; [reflexivity|]. split; [reflexivity|].
  split; [reflexivity|]. intros n s body.
  match goal with
  | |- context [step (Success n s body) ?q] =>
      destruct (step_success_binds_nothing n s body q) as (Hcc & Hb & Hconn & Hch);
      set (r := snd (step (Success n s body) q)) in *
  end.
  rewrite Hcc, Hb, Hch. simpl in Hconn.
  unfold created_channels, bindings. simpl. rewrite !omap_app. simpl.
  repeat split; try reflexivity;
    rewrite (offer_spec fn' opts' r _ Hconn); simpl; try reflexivity.
  fold (bindings (trace r)). rewrite omap_app. fold (bindings (trace r)).
  rewrite Hb. unfold bindings. simpl. rewrite omap_app. simpl.
  now rewrite <- app_assoc.
Qed.

Lemma offer_binds_channel_before_createOffer_witness :
  connection created_peer = Some fresh_connection
  /\ trace (snd (offer (VFun 0) VUndefined created_peer))
     = [CNewPeerConnection VNull; CEmit "create" [];
        CCreateDataChannel "master"; CChannel master;
        CEmit "before offer" []; CCreateOffer VUndefined].
Proof.
  split; [reflexivity|].
  exact (proj1 (proj2 (offer_binds_channel_before_createOffer created_peer
                         fresh_connection (VFun 0) VUndefined eq_refl))).
Defined.

(** C6 fails as stated: [offer] called again after the first offer was
    created binds a second channel on the same peer. *)
Lemma offer_called_again_binds_again :
  let p := run [Offer VUndefined VUndefined; Success 0 sample_offer returns;
                Offer VUndefined VUndefined] created_peer in
  bindings (trace p) = [master; master]
  /\ length (bindings (trace p)) <> 1
  /\ trace p
     = [CNewPeerConnection VNull; CEmit "create" [];
        CCreateDataChannel "master"; CChannel master;
        CEmit "before offer" []; CCreateOffer VUndefined;
        CSetLocalDescription sample_offer; CQueue "offer" [session_value sample_offer];
        CCreateDataChannel "master"; CChannel master;
        CEmit "before offer" []; CCreateOffer VUndefined].
Proof. repeat split; discriminate. Qed.

Lemma step_datachannel props p c :
  connection p = Some c ->
  ondatachannel c = true ->
  step (DataChannelEvent (VObj props)) p =
  (Ok RUndefined,
   set_channel (Some {| raw := assoc "channel" props |})
     (add_trace [CChannel (assoc "channel" props)] p)).
Proof.
  intros Hc Hd. simpl. unfold fire. rewrite Hc, Hd. reflexivity.
Qed.

Lemma last_cons_default {A} (x d : A) (l : list A) :
  List.last (x :: l) d = List.last l x.
Proof.
  revert x d. induction l as [|y l IH]; intros x d; [reflexivity|].
  change (List.last (x :: y :: l) d) with (List.last (y :: l) d).
  now rewrite (IH y d), (IH y x).
Qed.

(** C7, as the code has it: on a responder the callback set by [answer]
    binds the channel of every notification it receives.  After any number
    of remote-channel notifications, [lib/channel] has been called once per
    notification, in order, and the peer holds the binding of the last one
    (or what it held before, if there was none). *)
Theorem every_channel_notification_binds
    (p : Peer) (c : PeerConnection) (evs : list (list (string * value))) :
  connection p = Some c ->
  ondatachannel c = true ->
  let p' := run (map (fun props => DataChannelEvent (VObj props)) evs) p in
  bindings (trace p') = bindings (trace p) ++ map (assoc "channel") evs
  /\ channel p'
     = List.last (map (fun props => Some {| raw := assoc "channel" props |}) evs)
                 (channel p).
Proof.
  revert p. induction evs as [|props evs IH]; intros p Hc Hd.
  - simpl. now rewrite app_nil_r.
  - cbn zeta.
    change (run (map (fun props => DataChannelEvent (VObj props)) (props :: evs)) p)
      with (run (map (fun props => DataChannelEvent (VObj props)) evs)
                (snd (step (DataChannelEvent (VObj props)) p))).
    rewrite (step_datachannel props p c Hc Hd). cbn [snd].
    destruct (IH (set_channel (Some {| raw := assoc "channel" props |})
                    (add_trace [CChannel (assoc "channel" props)] p)) Hc Hd)
      as [Hb Hch].
    rewrite Hb, Hch. split.
    + simpl. unfold bindings. rewrite omap_app. simpl. now rewrite <- app_assoc.
    + cbn [map]. now rewrite last_cons_default.
Qed.

Lemma every_channel_notification_binds_witness :
  connection responder
    = Some {| onaddstream := true; onicecandidate := true; ongatheringchange := true;
              ondatachannel := true; requests := [(VUndefined, "answer")] |}
  /\ bindings (trace (run [DataChannelEvent channel_event; DataChannelEvent channel_event]
                         responder))
     = [master; master].
Proof.
  split; [reflexivity|].
  exact (proj1 (every_channel_notification_binds responder _
                  [[("channel", master)]; [("channel", master)]] eq_refl eq_refl)).
Defined.

(** C7 fails as stated: a channel notification fired twice on a responder
    makes two bindings, not one. *)
Lemma second_channel_notification_binds_again :
  let once := run [DataChannelEvent channel_event] responder in
  let twice := run [DataChannelEvent channel_event; DataChannelEvent channel_event]
                   responder in
  length (bindings (trace once)) = 1
  /\ length (bindings (trace twice)) = 2
  /\ length (bindings (trace twice)) <> 1
  /\ trace twice = trace once ++ [CChannel master].
Proof. repeat split; [discriminate]. Qed.

(** ** Candidates *)

Lemma step_candidate event candidate p c :
  connection p = Some c ->
  onicecandidate c = true ->
  get event "candidate" = Ok candidate ->
  truthy candidate = true ->
  step (IceCandidateEvent event) p
  = (Ok RUndefined, add_trace [CEmit "candidate" [candidate; event]] p).
Proof.
  intros Hc Hi Hg Ht. simpl. unfold fire. rewrite Hc, Hi.
  unfold on_icecandidate, bind, lift. now rewrite Hg, Ht.
Qed.

(** C8: when the candidate callback fires with an event whose candidate is
    truthy (as every candidate object is), the peer emits 'candidate' with
    that very candidate and the event, through [emit] and not through
    [queue]; and it does so every time: the same event fired [k] times
    gives [k] emissions. *)
Theorem candidate_is_emitted_each_time
    (p : Peer) (c : PeerConnection) (event candidate : value) (k : nat) :
  connection p = Some c ->
  onicecandidate c = true ->
  get event "candidate" = Ok candidate ->
  truthy candidate = true ->
  step (IceCandidateEvent event) p
  = (Ok RUndefined, add_trace [CEmit "candidate" [candidate; event]] p)
  /\ queued (trace (snd (step (IceCandidateEvent event) p))) = queued (trace p)
  /\ trace (run (repeat (IceCandidateEvent event) k) p)
     = trace p ++ repeat (CEmit "candidate" [candidate; event]) k.
Proof.
  intros Hc Hi Hg Ht.
  pose proof (step_candidate event candidate) as Hstep.
  split; [now apply (Hstep p c)|]. split.
  - rewrite (Hstep p c Hc Hi Hg Ht). simpl. rewrite queued_app. simpl.
    apply app_nil_r.
  - revert p Hc. induction k as [|k IH]; intros p Hc.
    + simpl. now rewrite app_nil_r.
    + change (run (repeat (IceCandidateEvent event) (S k)) p)
        with (run (repeat (IceCandidateEvent event) k)
                  (snd (step (IceCandidateEvent event) p))).
      rewrite (Hstep p c Hc Hi Hg Ht). cbn [snd].
      rewrite (IH (add_trace [CEmit "candidate" [candidate; event]] p) Hc).
      simpl. now rewrite <- app_assoc.
Qed.

Lemma candidate_is_emitted_each_time_witness :
  truthy host_candidate = true
  /\ trace (run [IceCandidateEvent candidate_event; IceCandidateEvent candidate_event]
               created_peer)
     = trace created_peer ++ [CEmit "candidate" [host_candidate; candidate_event];
                              CEmit "candidate" [host_candidate; candidate_event]].
Proof.
  split; [reflexivity|].
  exact (proj2 (proj2 (candidate_is_emitted_each_time created_peer fresh_connection
                         candidate_event host_candidate 2
                         eq_refl eq_refl eq_refl eq_refl))).
Defined.

(** C10: [ice] with a falsy candidate returns without calling the
    connection and leaves the peer as it was, connection or not; with a
    truthy candidate, on a peer with a connection, it wraps the candidate
    and hands it to [addIceCandidate], and does nothing else. *)
Theorem ice_skips_falsy_candidates (candidate : value) (p : Peer) :
  (truthy candidate = false -> ice candidate p = (Ok RUndefined, p))
  /\ (truthy candidate = true ->
      forall c, connection p = Some c ->
      ice candidate p = (Ok RUndefined, add_trace [CAddIceCandidate candidate] p)).
Proof.
  unfold ice. split; intros Ht; rewrite Ht; [reflexivity|].
  intros c Hc. unfold_methods. now rewrite Hc.
Qed.

Lemma ice_skips_falsy_candidates_witness :
  ice VNull created_peer = (Ok RUndefined, created_peer)
  /\ ice VUndefined (new_Peer {| servers := VNull |})
     = (Ok RUndefined, new_Peer {| servers := VNull |})
  /\ ice host_candidate created_peer
     = (Ok RUndefined, add_trace [CAddIceCandidate host_candidate] created_peer).
Proof.
  split; [|split].
  - exact (proj1 (ice_skips_falsy_candidates VNull created_peer) eq_refl).
  - exact (proj1 (ice_skips_falsy_candidates VUndefined (new_Peer {| servers := VNull |}))
             eq_refl).
  - exact (proj2 (ice_skips_falsy_candidates host_candidate created_peer) eq_refl
             fresh_connection eq_refl).
Defined.

(** ** Messages *)

Lemma step_extends i p : exists cs, trace (snd (step i p)) = trace p ++ cs.
Proof.
  destruct p as [conn k cs ch tr].
  destruct i; unfold step.
  13: { unfold settle; simpl.
        destruct conn as [c|]; [|exists []; now rewrite app_nil_r].
        destruct (requests c !! n) as [[fn ty]|]; [|exists []; now rewrite app_nil_r].
        unfold bind. rewrite session_success_spec; simpl.
        destruct (pipeline_fold cs (sdp offer0)); simpl;
          [|exists []; now rewrite app_nil_r].
        case_fn fn; rewrite <- ?app_assoc; eauto. }
  all: unfold_methods; simpl; case_matches; rewrite <- ?app_assoc; eauto;
    exists []; now rewrite app_nil_r.
Qed.

Lemma run_extends ins p : exists cs, trace (run ins p) = trace p ++ cs.
Proof.
  revert p. induction ins as [|i ins IH]; intros p.
  - exists []. simpl. now rewrite app_nil_r.
  - change (run (i :: ins) p) with (run ins (snd (step i p))).
    destruct (IH (snd (step i p))) as [cs2 H2].
    destruct (step_extends i p) as [cs1 H1].
    exists (cs1 ++ cs2). now rewrite H2, H1, app_assoc.
Qed.

Lemma bus_step_keeps b c :
  (forall e, In e (pendingQueue b) -> In e (pendingQueue (bus_step b c)))
  /\ (forall d, In d (deliveries b) -> In d (deliveries (bus_step b c))).
Proof.
  destruct c; simpl; split; intros x Hx; auto; apply in_or_app; auto.
Qed.

Lemma bus_steps_keep tr b :
  (forall e, In e (pendingQueue b) -> In e (pendingQueue (fold_left bus_step tr b)))
  /\ (forall d, In d (deliveries b) -> In d (deliveries (fold_left bus_step tr b))).
Proof.
  revert b. induction tr as [|c tr IH]; intros b; simpl; [now split|].
  destruct (IH (bus_step b c)) as [IHq IHd].
  destruct (bus_step_keeps b c) as [Hq Hd].
  split; auto.
Qed.

Lemma bus_subscribe_replays topic o args b :
  In (topic, args) (pendingQueue b) ->
  In (o, topic, args) (deliveries (bus_subscribe topic o b)).
Proof.
  intros Hin. simpl. apply in_or_app. right.
  apply in_map_iff. exists args. split; [reflexivity|].
  unfold on_topic. apply in_map_iff. exists (topic, args). split; [reflexivity|].
  apply filter_In. split; [exact Hin|]. simpl. apply String.eqb_refl.
Qed.

(** A message queued before a channel is bound reaches that channel. *)
Lemma queued_message_reaches_channel before later rest msg rawchannel :
  In (ChannelSender rawchannel, "channel message", [msg])
     (deliveries (deliver (before ++ [CQueue "channel message" [msg]] ++ later
                           ++ [CChannel rawchannel] ++ rest))).
Proof.
  unfold deliver. rewrite !fold_left_app.
  apply bus_steps_keep. simpl.
  apply (bus_subscribe_replays "channel message").
  apply bus_steps_keep. simpl. apply in_or_app. right. now left.
Qed.

(** C9: [send] never raises, whether or not the peer has a connection or
    a channel; it queues the message as a 'channel message' event and
    returns the peer.  On the bus the message is retained in the pending
    queue, and it is delivered to the data channel once one is bound, be it
    by a later [offer] or by a later remote-channel notification on a
    responder, whatever happens in between. *)
Theorem send_queues_until_a_channel_exists (p : Peer) (msg : value) :
  let q := snd (send msg p) in
  send msg p = (Ok RThis, add_trace [CQueue "channel message" [msg]] p)
  /\ In ("channel message", [msg]) (pendingQueue (deliver (trace q)))
  /\ (forall ins fn opts c,
        connection (run ins q) = Some c ->
        In (ChannelSender master, "channel message", [msg])
           (deliveries (deliver (trace (snd (offer fn opts (run ins q)))))))
  /\ (forall ins props c,
        connection (run ins q) = Some c ->
        ondatachannel c = true ->
        In (ChannelSender (assoc "channel" props), "channel message", [msg])
           (deliveries (deliver (trace (snd (step (DataChannelEvent (VObj props))
                                                 (run ins q))))))).
Proof.
  intros q. subst q. change (send msg p)
    with (Ok RThis, add_trace [CQueue "channel message" [msg]] p).
  cbn [snd]. split; [reflexivity|]. split; [|split].
  - unfold deliver. simpl. rewrite fold_left_app. simpl.
    apply in_or_app. right. now left.
  - intros ins fn opts c Hc.
    rewrite (offer_spec fn opts _ c Hc). cbn [snd].
    destruct (run_extends ins (add_trace [CQueue "channel message" [msg]] p))
      as [later Hlater].
    simpl. rewrite Hlater. simpl. rewrite <- !app_assoc.
    pose proof (queued_message_reaches_channel (trace p)
                  (later ++ [CCreateDataChannel "master"])
                  [CEmit "before offer" []; CCreateOffer opts] msg master) as H.
    rewrite <- !app_assoc in H. exact H.
  - intros ins props c Hc Hd.
    rewrite (step_datachannel props _ c Hc Hd). cbn [snd].
    destruct (run_extends ins (add_trace [CQueue "channel message" [msg]] p))
      as [later Hlater].
    simpl. rewrite Hlater. simpl. rewrite <- !app_assoc.
    apply (queued_message_reaches_channel (trace p) later [] msg).
Qed.

Lemma send_queues_until_a_channel_exists_witness :
  send (VStr "hello") (new_Peer {| servers := VNull |})
  = (Ok RThis, add_trace [CQueue "channel message" [VStr "hello"]]
                 (new_Peer {| servers := VNull |}))
  /\ In (ChannelSender master, "channel message", [VStr "hello"])
        (deliveries (deliver (trace (run [Send (VStr "hello"); Create;
                                          Offer VUndefined VUndefined]
                                         (new_Peer {| servers := VNull |}))))).
Proof.
  split.
  - exact (proj1 (send_queues_until_a_channel_exists (new_Peer {| servers := VNull |})
                    (VStr "hello"))).
  - exact (proj1 (proj2 (proj2 (send_queues_until_a_channel_exists
                                  (new_Peer {| servers := VNull |}) (VStr "hello"))))
             [Create] VUndefined VUndefined fresh_connection eq_refl).
Defined.

Example message_delivery :
  deliveries (deliver (trace (run [Send (VStr "hello"); Create;
                                   Offer VUndefined VUndefined]
                                  (new_Peer {| servers := VNull |}))))
  = [(ChannelSender master, "channel message", [VStr "hello"])].
Proof. reflexivity. Qed.

(** * Further properties of the code *)

(** ** The pipeline *)

Lemma pipeline_fold_app stages1 stages2 text :
  pipeline_fold (stages1 ++ stages2) text =
  match pipeline_fold stages1 text with
  | Ok text' => pipeline_fold stages2 text'
  | Throw e => Throw e
  end.
Proof.
  unfold pipeline_fold. rewrite fold_left_app.
  destruct (fold_left feed stages1 (Ok text)); [reflexivity|apply feed_throw].
Qed.

(** X1: the loop of [local] over two lists of codecs put end to end is the
    loop over the first followed by the loop over the second on its result;
    when a codec of the first list raises, no codec of the second is run
    and the exception is the result. *)
Theorem apply_codecs_app (cs1 cs2 : list Codec) (text : string) :
  apply_codecs (cs1 ++ cs2) (length (cs1 ++ cs2)) 0 text =
  match apply_codecs cs1 (length cs1) 0 text with
  | Ok text' => apply_codecs cs2 (length cs2) 0 text'
  | Throw e => Throw e
  end.
Proof.
  rewrite !apply_codecs_fold, pipeline_fold_app.
  destruct (pipeline_fold cs1 text); [now rewrite apply_codecs_fold|reflexivity].
Qed.

(** X2: on a peer with no codec registered, the success callback of a
    pending request commits the description exactly as the transport gave
    it, and queues that same description. *)
Theorem success_without_codecs_commits_as_is
    (p : Peer) (c : PeerConnection) (n : nat) (ty : string) (s : Session)
    (body : Callback) :
  codecs p = [] ->
  connection p = Some c ->
  requests c !! n = Some (VUndefined, ty) ->
  step (Success n s body) p
  = (Ok RUndefined,
     add_trace [CSetLocalDescription s; CQueue ty [session_value s]] p).
Proof.
  intros Hcs Hc Hn. rewrite (step_success p c n VUndefined ty s body Hc Hn).
  rewrite session_success_spec, Hcs, Hc. simpl.
  rewrite add_trace_twice. now destruct s.
Qed.

Lemma success_without_codecs_commits_as_is_witness :
  step (Success 0 sample_answer returns) responder
  = (Ok RUndefined,
     add_trace [CSetLocalDescription sample_answer;
                CQueue "answer" [session_value sample_answer]] responder).
Proof.
  exact (success_without_codecs_commits_as_is responder _ 0 "answer" sample_answer
           returns eq_refl eq_refl eq_refl).
Defined.

(** X3: the codecs are read when the description arrives, not when it is
    requested: a codec registered after [offer] or [answer] was called, but
    before the success callback runs, is applied to that description, after
    the codecs registered earlier. *)
Theorem codec_registered_while_pending_is_applied
    (p : Peer) (c : PeerConnection) (n : nat) (fn : value) (ty : string)
    (late : Codec) (s : Session) (body : Callback) :
  connection p = Some c ->
  requests c !! n = Some (fn, ty) ->
  committed (trace (snd (step (Success n s body) (snd (codec late p)))))
  = committed (trace p) ++
    match pipeline_fold (codecs p) (sdp s) with
    | Ok text =>
        match late text with
        | Ok text' => [with_sdp s text']
        | Throw _ => []
        end
    | Throw _ => []
    end.
Proof.
  intros Hc Hn. simpl snd at 2. unfold codec; cbn [snd].
  rewrite (step_success (set_codecs (codecs p ++ [late]) p) c n fn ty s body Hc Hn).
  rewrite session_success_spec. simpl. rewrite Hc.
  rewrite pipeline_fold_app.
  destruct (pipeline_fold (codecs p) (sdp s)) as [text|e]; simpl;
    [|now rewrite app_nil_r].
  unfold pipeline_fold; simpl.
  destruct (late text) as [text'|e]; simpl; [|now rewrite app_nil_r].
  case_fn fn; rewrite ?committed_app; simpl; rewrite ?app_nil_r; reflexivity.
Qed.

Lemma codec_registered_while_pending_is_applied_witness :
  committed (trace (snd (step (Success 0 sample_answer returns)
                              (snd (codec addBandwidthCap responder)))))
  = [{| type := "answer"; sdp := "m=audio;b=AS:64;" |}].
Proof.
  exact (codec_registered_while_pending_is_applied responder _ 0 VUndefined "answer"
           addBandwidthCap sample_answer returns eq_refl eq_refl).
Defined.

(** ** Runs *)

(** Induction over a run: an invariant kept by every step, and an
    observation that every step extends by what the input contributes. *)
Lemma run_fold {A} (ok : input -> Prop) (Inv : Peer -> Prop)
    (obs : Peer -> list A) (out : input -> list A) :
  (forall i p, ok i -> Inv p ->
     Inv (snd (step i p)) /\ obs (snd (step i p)) = obs p ++ out i) ->
  forall ins p, Forall ok ins -> Inv p ->
    Inv (run ins p) /\ obs (run ins p) = obs p ++ flat_map out ins.
Proof.
  intros Hstep ins. induction ins as [|i ins IH]; intros p Hok HI.
  - simpl. now rewrite app_nil_r.
  - change (run (i :: ins) p) with (run ins (snd (step i p))).
    inversion Hok as [|? ? Hi Hins]; subst.
    destruct (Hstep i p Hi HI) as [HI' Ho].
    destruct (IH _ Hins HI') as [HI'' Ho'].
    split; [exact HI''|]. rewrite Ho', Ho. simpl. now rewrite app_assoc.
Qed.

Lemma Forall_any {A} (l : list A) : Forall (fun _ => True) l.
Proof. induction l; constructor; auto. Qed.

Ltac case_steps :=
  repeat first
    [ rewrite session_success_spec; simpl
    | match goal with
      | |- context [match ?x with _ => _ end] =>
          lazymatch x with
          | context [match _ with _ => _ end] => fail
          | _ => destruct x eqn:?; simpl
          end
      end ].

(** Every case of [step], on a peer taken apart. *)
Ltac step_cases i p :=
  let conn := fresh "conn" in
  destruct p as [conn ? ? ? ?];
  destruct i; unfold step; unfold_methods; simpl; case_steps.

Lemma step_codecs i p : codecs (snd (step i p)) = codecs p ++ codec_of i.
Proof. step_cases i p; now rewrite ?app_nil_r. Qed.

(** X4: over any sequence of method calls and transport callbacks, the list
    of codecs only grows at its end: it is the list before, followed by the
    codecs given to [codec], in the order of the calls.  Nothing removes,
    reorders or replaces a codec. *)
Theorem codecs_only_grow (ins : list input) (p : Peer) :
  codecs (run ins p) = codecs p ++ flat_map codec_of ins.
Proof.
  apply (run_fold (fun _ => True) (fun _ => True) codecs codec_of);
    [|apply Forall_any|exact I].
  intros i q _ _. split; [exact I|apply step_codecs].
Qed.

Ltac observe :=
  rewrite ?omap_app; simpl; rewrite ?app_nil_r, <- ?app_assoc; simpl;
  try reflexivity; try congruence.

Lemma step_created i p : created p -> created (snd (step i p)).
Proof. unfold created. step_cases i p; congruence. Qed.

Lemma step_remotes i p :
  created p ->
  remotes (trace (snd (step i p))) = remotes (trace p) ++ remote_of i.
Proof. unfold created, remotes. step_cases i p; intros; observe. Qed.

(** X5: on a peer with a connection, over any sequence of method calls and
    transport callbacks, the descriptions handed to [setRemoteDescription]
    are exactly the arguments of the calls of [remote], in order and as
    given: no codec is applied to them and nothing else sets a remote
    description. *)
Theorem remote_descriptions_pass_unchanged (ins : list input) (p : Peer) :
  created p ->
  remotes (trace (run ins p)) = remotes (trace p) ++ flat_map remote_of ins.
Proof.
  intros Hp.
  apply (run_fold (fun _ => True) created (fun q => remotes (trace q)) remote_of);
    [|apply Forall_any|exact Hp].
  intros i q _ Hq. split; [now apply step_created|now apply step_remotes].
Qed.

Lemma created_created_peer : created created_peer.
Proof. discriminate. Qed.

Lemma remote_descriptions_pass_unchanged_witness :
  created created_peer
  /\ remotes (trace (run [RegisterCodec raising_codec; Remote sample_offer;
                          Answer VUndefined VUndefined; Success 0 sample_answer returns]
                         created_peer))
     = [sample_offer].
Proof.
  split; [exact created_created_peer|].
  exact (remote_descriptions_pass_unchanged
           [RegisterCodec raising_codec; Remote sample_offer;
            Answer VUndefined VUndefined; Success 0 sample_answer returns]
           created_peer created_created_peer).
Defined.

Lemma step_created_channels i p :
  created p ->
  created_channels (trace (snd (step i p)))
  = created_channels (trace p) ++ channel_of i.
Proof. unfold created, created_channels. step_cases i p; intros; observe. Qed.

(** X6: on a peer with a connection, over any sequence of method calls and
    transport callbacks, [createDataChannel] is called once for every call
    of [offer], always with the label 'master', and by nothing else:
    neither [answer] nor any callback creates a data channel. *)
Theorem data_channel_created_once_per_offer (ins : list input) (p : Peer) :
  created p ->
  created_channels (trace (run ins p))
  = created_channels (trace p) ++ flat_map channel_of ins.
Proof.
  intros Hp.
  apply (run_fold (fun _ => True) created
           (fun q => created_channels (trace q)) channel_of);
    [|apply Forall_any|exact Hp].
  intros i q _ Hq. split; [now apply step_created|now apply step_created_channels].
Qed.

Lemma data_channel_created_once_per_offer_witness :
  created created_peer
  /\ created_channels
       (trace (run [Answer VUndefined VUndefined; DataChannelEvent channel_event;
                    Offer VUndefined VUndefined; Success 1 sample_offer returns]
                   created_peer))
     = ["master"].
Proof.
  split; [exact created_created_peer|].
  exact (data_channel_created_once_per_offer
           [Answer VUndefined VUndefined; DataChannelEvent channel_event;
            Offer VUndefined VUndefined; Success 1 sample_offer returns]
           created_peer created_created_peer).
Defined.

Lemma run_created ins p : created p -> created (run ins p).
Proof.
  intros Hp.
  apply (run_fold (fun _ => True) created (fun _ => @nil unit) (fun _ => []));
    [|apply Forall_any|exact Hp].
  intros i q _ Hq. split; [now apply step_created|reflexivity].
Qed.

Lemma call_returns i p :
  created p -> is_call i = true -> exists r, fst (step i p) = Ok r.
Proof.
  unfold created. step_cases i p; intros; try discriminate; try congruence; eauto.
Qed.

(** X7: once [create] has run, the connection is never lost, so no method
    call of the owner raises in the code of the peer, whatever calls and
    callbacks came before: [create], [stream], [ice], [remote], [offer],
    [answer], [codec] and [send] all return normally.  In this code only a
    callback can raise (a codec or [fn] that fails, an event without its
    object); what the transport itself may raise is not part of it. *)
Theorem calls_return_normally_once_created
    (ins : list input) (i : input) (p : Peer) :
  created p ->
  is_call i = true ->
  exists r, fst (step i (run ins p)) = Ok r.
Proof.
  intros Hp Hi. apply call_returns; [now apply run_created|exact Hi].
Qed.

Lemma calls_return_normally_once_created_witness :
  created created_peer
  /\ exists r,
       fst (step (Offer VUndefined VUndefined)
                 (run [RegisterCodec raising_codec; Answer (VNum 1) VUndefined;
                       Success 0 sample_answer returns; IceCandidateEvent VNull]
                      created_peer)) = Ok r.
Proof.
  split; [exact created_created_peer|].
  exact (calls_return_normally_once_created
           [RegisterCodec raising_codec; Answer (VNum 1) VUndefined;
            Success 0 sample_answer returns; IceCandidateEvent VNull]
           (Offer VUndefined VUndefined) created_peer created_created_peer eq_refl).
Defined.

(** ** Errors *)

Lemma step_errors i p :
  is_failure i = false ->
  errors (trace (snd (step i p))) = errors (trace p).
Proof. unfold errors. step_cases i p; intros; observe. Qed.

(** X8: an 'error' event is emitted by the failure callback of a request
    and by nothing else.  Over any sequence of method calls and callbacks
    in which the transport reports no failure, no 'error' event is emitted:
    not when a codec raises, not when [fn] is not a function, not when a
    method is called before [create], not when an event lacks its object. *)
Theorem no_error_event_without_failure_callback (ins : list input) (p : Peer) :
  Forall (fun i => is_failure i = false) ins ->
  errors (trace (run ins p)) = errors (trace p).
Proof.
  intros Hok.
  destruct (run_fold (fun i => is_failure i = false) (fun _ => True)
              (fun q => errors (trace q)) (fun _ => [])
              (fun i q Hi _ => conj I (eq_trans (step_errors i q Hi)
                                         (eq_sym (app_nil_r _))))
              ins p Hok I) as [_ H].
  rewrite H. clear H. induction ins as [|i ins IH]; simpl.
  - apply app_nil_r.
  - inversion Hok; subst. now apply IH.
Qed.

Lemma no_error_event_without_failure_callback_witness :
  errors (trace (run [Offer (VNum 1) VUndefined; Create; RegisterCodec raising_codec;
                      Offer (VNum 1) VUndefined; Success 0 sample_offer returns;
                      IceCandidateEvent VNull]
                     (new_Peer {| servers := VNull |})))
  = [].
Proof.
  apply (no_error_event_without_failure_callback
           [Offer (VNum 1) VUndefined; Create; RegisterCodec raising_codec;
            Offer (VNum 1) VUndefined; Success 0 sample_offer returns;
            IceCandidateEvent VNull]
           (new_Peer {| servers := VNull |})).
  repeat constructor.
Defined.

(** ** Before [create] *)

(** X9: on a peer without a connection, [stream], [remote], [offer],
    [answer] and [ice] with a truthy candidate raise a TypeError and leave
    the peer exactly as it was: no event is emitted or queued.  [session]
    called directly is different: it has emitted 'before <type>' by the time
    it raises. *)
Theorem calls_before_create_raise
    (p : Peer) (s : Session) (v fn opts : value) (ty : string) :
  connection p = None ->
  stream v p = (Throw TypeError, p)
  /\ remote s p = (Throw TypeError, p)
  /\ offer fn opts p = (Throw TypeError, p)
  /\ answer fn opts p = (Throw TypeError, p)
  /\ (truthy v = true -> ice v p = (Throw TypeError, p))
  /\ session fn opts ty p
     = (Throw TypeError, add_trace [CEmit (String.append "before " ty) []] p).
Proof.
  intros Hc. unfold_methods. rewrite Hc. repeat split.
  - intros ->. simpl. now rewrite Hc.
  - simpl. now rewrite Hc.
Qed.

Lemma calls_before_create_raise_witness :
  offer VUndefined VUndefined (new_Peer {| servers := VNull |})
  = (Throw TypeError, new_Peer {| servers := VNull |})
  /\ session VUndefined VUndefined "offer" (new_Peer {| servers := VNull |})
     = (Throw TypeError,
        add_trace [CEmit "before offer" []] (new_Peer {| servers := VNull |})).
Proof.
  pose proof (calls_before_create_raise (new_Peer {| servers := VNull |})
                sample_offer VNull VUndefined VUndefined "offer" eq_refl) as H.
  split; [exact (proj1 (proj2 (proj2 H)))|exact (proj2 (proj2 (proj2 (proj2 (proj2 H)))))].
Defined.

Lemma step_uncreated i p :
  is_create i = false ->
  connection p = None ->
  connection (snd (step i p)) = None
  /\ trace (snd (step i p)) = trace p ++ message_of i.
Proof.
  step_cases i p; intros; try discriminate; rewrite ?app_nil_r; auto.
Qed.

(** X10: as long as [create] is not called, the peer never gets a
    connection and nothing reaches the transport: over any sequence of
    other method calls and of callbacks, the only calls recorded are the
    'channel message' events queued by [send], in order. *)
Theorem nothing_reaches_transport_before_create (ins : list input) (p : Peer) :
  Forall (fun i => is_create i = false) ins ->
  connection p = None ->
  connection (run ins p) = None
  /\ trace (run ins p) = trace p ++ flat_map message_of ins.
Proof.
  intros Hok Hp.
  apply (run_fold (fun i => is_create i = false) (fun q => connection q = None)
           trace message_of); auto.
  intros i q Hi Hq. now apply step_uncreated.
Qed.

Lemma nothing_reaches_transport_before_create_witness :
  trace (run [Offer VUndefined VUndefined; Send (VStr "hello"); Ice host_candidate;
              Stream VNull; IceCandidateEvent end_of_candidates; Send (VStr "again")]
             (new_Peer {| servers := VNull |}))
  = [CQueue "channel message" [VStr "hello"]; CQueue "channel message" [VStr "again"]].
Proof.
  refine (proj2 (nothing_reaches_transport_before_create
                   [Offer VUndefined VUndefined; Send (VStr "hello"); Ice host_candidate;
                    Stream VNull; IceCandidateEvent end_of_candidates;
                    Send (VStr "again")]
                   (new_Peer {| servers := VNull |}) _ eq_refl)).
  repeat constructor.
Defined.

(** ** Events *)

Lemma step_candidates i p :
  gathering p ->
  candidates (trace (snd (step i p))) = candidates (trace p) ++ candidate_of i.
Proof.
  unfold gathering, candidates, candidate_of.
  step_cases i p; intros; observe; try tauto;
    repeat match goal with H : _ /\ _ |- _ => destruct H end; congruence.
Qed.

(** X11: on a created peer, over any sequence of method calls and transport
    callbacks, the 'candidate' events emitted are exactly the truthy
    candidates the candidate callback received, each with its event, in the
    order received: none is dropped, held back, merged with a duplicate or
    emitted for another reason. *)
Theorem candidates_relayed_in_order (ins : list input) (p : Peer) :
  gathering p ->
  candidates (trace (run ins p)) = candidates (trace p) ++ flat_map candidate_of ins.
Proof.
  intros Hp.
  apply (run_fold (fun _ => True) gathering
           (fun q => candidates (trace q)) candidate_of);
    [|apply Forall_any|exact Hp].
  intros i q _ Hq. split; [exact (proj1 (step_ready i q Hq))|now apply step_candidates].
Qed.

Lemma candidates_relayed_in_order_witness :
  gathering created_peer
  /\ candidates (trace (run [IceCandidateEvent candidate_event;
                             Offer VUndefined VUndefined;
                             IceCandidateEvent candidate_event;
                             IceCandidateEvent end_of_candidates]
                            created_peer))
     = [[host_candidate; candidate_event]; [host_candidate; candidate_event]].
Proof.
  split; [exact gathering_created_peer|].
  exact (candidates_relayed_in_order
           [IceCandidateEvent candidate_event; Offer VUndefined VUndefined;
            IceCandidateEvent candidate_event; IceCandidateEvent end_of_candidates]
           created_peer gathering_created_peer).
Defined.

Ltac in_kinds :=
  simpl; repeat first [left; reflexivity | right].

Ltac all_kinds :=
  simpl; repeat (apply List.Forall_cons; [in_kinds|]); try apply List.Forall_nil.

Lemma step_queued_kinds i p :
  gathering p ->
  Forall (fun e => In (fst e) queued_kinds) (queued (trace p)) ->
  Forall (fun e => In (fst e) queued_kinds) (queued (trace (snd (step i p)))).
Proof.
  destruct p as [conn k cs ch tr]. unfold gathering; simpl.
  destruct conn as [[s1 s2 s3 s4 reqs]|]; [|contradiction].
  simpl. intros (-> & -> & Hreq) Hq.
  assert (Hadd : forall cs', Forall (fun e => In (fst e) queued_kinds) (queued cs') ->
                 Forall (fun e => In (fst e) queued_kinds) (queued (tr ++ cs'))).
  { intros cs' H. rewrite queued_app. apply Forall_app. now split. }
  destruct i; unfold step.
  13: { unfold settle; simpl.
        destruct (reqs !! n) as [[fn ty]|] eqn:Hn; simpl; [|exact Hq].
        pose proof (Forall_lookup_1 _ _ _ _ Hreq Hn) as Hty; simpl in Hty.
        unfold bind. rewrite session_success_spec; simpl.
        destruct (pipeline_fold cs (sdp offer0)); simpl; [|exact Hq].
        destruct Hty as [-> | ->]; case_fn fn; rewrite <- ?app_assoc;
          apply Hadd; all_kinds. }
  all: unfold_methods; simpl; case_matches; rewrite <- ?app_assoc;
    try exact Hq; apply Hadd; all_kinds.
Qed.

(** X12: on a created peer, over any sequence of method calls and transport
    callbacks, the only kinds of event handed to [queue] are 'ready',
    'offer', 'answer', 'local stream' and 'channel message'; 'create',
    'before offer', 'before answer', 'candidate', 'remote stream' and
    'error' are never queued. *)
Theorem only_five_kinds_are_queued (ins : list input) (p : Peer) :
  gathering p ->
  Forall (fun e => In (fst e) queued_kinds) (queued (trace p)) ->
  Forall (fun e => In (fst e) queued_kinds) (queued (trace (run ins p))).
Proof.
  intros Hp Hq.
  refine (proj2 (proj1 (run_fold (fun _ => True)
            (fun q => gathering q
                      /\ Forall (fun e => In (fst e) queued_kinds) (queued (trace q)))
            (fun _ => @nil unit) (fun _ => []) _ ins p (Forall_any ins) (conj Hp Hq)))).
  intros i q _ [Hg Hk]. split; [split|reflexivity].
  - exact (proj1 (step_ready i q Hg)).
  - now apply step_queued_kinds.
Qed.

Lemma only_five_kinds_are_queued_witness :
  gathering created_peer
  /\ Forall (fun e => In (fst e) queued_kinds)
       (queued (trace (run [Stream VNull; Offer VUndefined VUndefined;
                            Success 0 sample_offer returns; Send (VStr "hello");
                            IceCandidateEvent candidate_event;
                            IceCandidateEvent end_of_candidates; Failure 0 VNull]
                           created_peer))).
Proof.
  split; [exact gathering_created_peer|].
  exact (only_five_kinds_are_queued
           [Stream VNull; Offer VUndefined VUndefined; Success 0 sample_offer returns;
            Send (VStr "hello"); IceCandidateEvent candidate_event;
            IceCandidateEvent end_of_candidates; Failure 0 VNull]
           created_peer gathering_created_peer (List.Forall_nil _)).
Defined.

(** ** Channels *)

Lemma step_deaf i p :
  is_answer i = false ->
  deaf_to_channels p ->
  deaf_to_channels (snd (step i p))
  /\ bindings (trace (snd (step i p))) = bindings (trace p) ++ binding_of i.
Proof.
  unfold deaf_to_channels, bindings.
  step_cases i p; intros; try discriminate; try contradiction;
    observe; simpl in *; subst; try discriminate; split; observe.
Qed.

(** X13: a peer on which [answer] is never called takes no channel from the
    far side: its connection has no [ondatachannel] callback, so over any
    sequence of other calls and of callbacks, remote-channel notifications
    included, the only bindings made are those of [offer], one 'master'
    channel per call. *)
Theorem only_offer_binds_without_answer (ins : list input) (p : Peer) :
  Forall (fun i => is_answer i = false) ins ->
  deaf_to_channels p ->
  deaf_to_channels (run ins p)
  /\ bindings (trace (run ins p)) = bindings (trace p) ++ flat_map binding_of ins.
Proof.
  intros Hok Hp.
  apply (run_fold (fun i => is_answer i = false) deaf_to_channels
           (fun q => bindings (trace q)) binding_of); auto.
  intros i q Hi Hq. now apply step_deaf.
Qed.

Lemma only_offer_binds_without_answer_witness :
  bindings (trace (run [DataChannelEvent channel_event; Offer VUndefined VUndefined;
                        DataChannelEvent channel_event; Success 0 sample_offer returns]
                       created_peer))
  = [master].
Proof.
  refine (proj2 (only_offer_binds_without_answer
                   [DataChannelEvent channel_event; Offer VUndefined VUndefined;
                    DataChannelEvent channel_event; Success 0 sample_offer returns]
                   created_peer _ eq_refl)).
  repeat constructor.
Defined.

(** ** What reaches the transport *)

Lemma step_added_candidates i p :
  created p ->
  added_candidates (trace (snd (step i p)))
  = added_candidates (trace p) ++ ice_of i.
Proof.
  unfold created, added_candidates, ice_of.
  step_cases i p; intros; observe.
Qed.

(** X14: on a peer with a connection, over any sequence of method calls and
    transport callbacks, the candidates handed to [addIceCandidate] are
    exactly the truthy arguments of the calls of [ice], in order: falsy ones
    are filtered out and nothing else adds a candidate. *)
Theorem only_truthy_candidates_are_added (ins : list input) (p : Peer) :
  created p ->
  added_candidates (trace (run ins p))
  = added_candidates (trace p) ++ flat_map ice_of ins.
Proof.
  intros Hp.
  apply (run_fold (fun _ => True) created
           (fun q => added_candidates (trace q)) ice_of);
    [|apply Forall_any|exact Hp].
  intros i q _ Hq. split; [now apply step_created|now apply step_added_candidates].
Qed.

Lemma only_truthy_candidates_are_added_witness :
  created created_peer
  /\ added_candidates (trace (run [Ice host_candidate; Ice VNull; Ice VUndefined;
                                   Ice (VStr ""); Ice host_candidate] created_peer))
     = [host_candidate; host_candidate].
Proof.
  split; [exact created_created_peer|].
  exact (only_truthy_candidates_are_added
           [Ice host_candidate; Ice VNull; Ice VUndefined; Ice (VStr "");
            Ice host_candidate] created_peer created_created_peer).
Defined.

Lemma step_requested i p :
  created p ->
  requested (trace (snd (step i p))) = requested (trace p) ++ request_of i.
Proof.
  unfold created, requested, request_of.
  step_cases i p; intros; observe.
Qed.

(** X15: on a peer with a connection, over any sequence of method calls and
    transport callbacks, [createOffer] is called once per call of [offer]
    and [createAnswer] once per call of [answer], with the options given
    and in the order of the calls.  No callback asks again: a failed
    request is not retried by the code. *)
Theorem one_request_per_negotiation_call (ins : list input) (p : Peer) :
  created p ->
  requested (trace (run ins p)) = requested (trace p) ++ flat_map request_of ins.
Proof.
  intros Hp.
  apply (run_fold (fun _ => True) created
           (fun q => requested (trace q)) request_of);
    [|apply Forall_any|exact Hp].
  intros i q _ Hq. split; [now apply step_created|now apply step_requested].
Qed.

Lemma one_request_per_negotiation_call_witness :
  created created_peer
  /\ requested (trace (run [Offer VUndefined (VNum 1); Failure 0 VNull;
                            Failure 0 VNull; Answer VUndefined (VNum 2)]
                           created_peer))
     = [CCreateOffer (VNum 1); CCreateAnswer (VNum 2)].
Proof.
  split; [exact created_created_peer|].
  exact (one_request_per_negotiation_call
           [Offer VUndefined (VNum 1); Failure 0 VNull; Failure 0 VNull;
            Answer VUndefined (VNum 2)] created_peer created_created_peer).
Defined.

Lemma step_committed i p :
  is_success i = false ->
  committed (trace (snd (step i p))) = committed (trace p).
Proof. unfold committed. step_cases i p; intros; observe. Qed.

(** X16: a local description is set by the success callback of a request
    and by nothing else: over any sequence of method calls and callbacks in
    which the transport delivers no description, [setLocalDescription] is
    never called. *)
Theorem no_local_description_without_success (ins : list input) (p : Peer) :
  Forall (fun i => is_success i = false) ins ->
  committed (trace (run ins p)) = committed (trace p).
Proof.
  intros Hok.
  destruct (run_fold (fun i => is_success i = false) (fun _ => True)
              (fun q => committed (trace q)) (fun _ => [])
              (fun i q Hi _ => conj I (eq_trans (step_committed i q Hi)
                                         (eq_sym (app_nil_r _))))
              ins p Hok I) as [_ H].
  rewrite H. clear H. induction ins as [|i ins IH]; simpl.
  - apply app_nil_r.
  - inversion Hok; subst. now apply IH.
Qed.

Lemma no_local_description_without_success_witness :
  committed (trace (run [RegisterCodec addBandwidthCap; Offer VUndefined VUndefined;
                         Remote sample_answer; Failure 0 VNull;
                         IceCandidateEvent end_of_candidates] created_peer))
  = [].
Proof.
  apply (no_local_description_without_success
           [RegisterCodec addBandwidthCap; Offer VUndefined VUndefined;
            Remote sample_answer; Failure 0 VNull;
            IceCandidateEvent end_of_candidates] created_peer).
  repeat constructor.
Defined.

(** ** Streams *)

Lemma step_listening i p : listening p -> listening (snd (step i p)).
Proof.
  unfold listening.
  step_cases i p; intros; try contradiction; simpl in *;
    repeat match goal with
           | H : _ /\ _ |- _ => destruct H
           | H : Some _ = Some _ |- _ => inversion H; subst; clear H
           end;
    try discriminate; simpl; repeat split; auto;
    try (apply Forall_app; split; auto).
Qed.

Lemma step_local_streams i p :
  listening p ->
  added_streams (trace (snd (step i p))) = added_streams (trace p) ++ stream_of i
  /\ local_streams (trace (snd (step i p)))
     = local_streams (trace p) ++ List.map (fun s => [s]) (stream_of i).
Proof.
  destruct p as [conn k cs ch tr]. unfold listening; simpl.
  destruct conn as [[s1 s2 s3 s4 reqs]|]; [|contradiction].
  simpl. intros (-> & Hreq).
  unfold added_streams, local_streams.
  destruct i; unfold step.
  13: { unfold settle; simpl.
        destruct (reqs !! n) as [[fn ty]|] eqn:Hn; simpl; [|split; observe].
        pose proof (Forall_lookup_1 _ _ _ _ Hreq Hn) as Hty; simpl in Hty.
        unfold bind. rewrite !session_success_spec; simpl.
        destruct (pipeline_fold cs (sdp offer0)); simpl; [|split; observe].
        destruct Hty as [-> | ->]; case_fn fn; split; observe. }
  all: unfold_methods; simpl; case_matches; split; observe.
Qed.

(** X17: on a created peer, over any sequence of method calls and transport
    callbacks, the streams handed to [addStream] are exactly the arguments
    of the calls of [stream], in order, and a 'local stream' event carrying
    the stream is queued for each of them and for nothing else. *)
Theorem local_streams_added_and_queued (ins : list input) (p : Peer) :
  listening p ->
  added_streams (trace (run ins p))
  = added_streams (trace p) ++ flat_map stream_of ins
  /\ local_streams (trace (run ins p))
     = local_streams (trace p) ++ List.map (fun s => [s]) (flat_map stream_of ins).
Proof.
  intros Hp.
  destruct (run_fold (fun _ => True) listening
              (fun q => added_streams (trace q)) stream_of
              (fun i q _ Hq => conj (step_listening i q Hq)
                                    (proj1 (step_local_streams i q Hq)))
              ins p (Forall_any ins) Hp) as [_ Ha].
  split; [exact Ha|].
  clear Ha. revert p Hp. induction ins as [|i ins IH]; intros p Hp.
  - simpl. now rewrite app_nil_r.
  - change (run (i :: ins) p) with (run ins (snd (step i p))).
    rewrite (IH _ (step_listening i p Hp)).
    rewrite (proj2 (step_local_streams i p Hp)).
    simpl. now rewrite List.map_app, app_assoc.
Qed.

Lemma listening_created_peer : listening created_peer.
Proof. unfold listening; simpl. split; [reflexivity|constructor]. Qed.

Lemma local_streams_added_and_queued_witness :
  listening created_peer
  /\ added_streams (trace (run [Stream (VStr "camera"); Offer VUndefined VUndefined;
                                Success 0 sample_offer returns; Stream (VStr "screen")]
                               created_peer))
     = [VStr "camera"; VStr "screen"].
Proof.
  split; [exact listening_created_peer|].
  exact (proj1 (local_streams_added_and_queued
                  [Stream (VStr "camera"); Offer VUndefined VUndefined;
                   Success 0 sample_offer returns; Stream (VStr "screen")]
                  created_peer listening_created_peer)).
Defined.

Lemma step_remote_streams i p :
  listening p ->
  remote_streams (trace (snd (step i p)))
  = remote_streams (trace p) ++ remote_stream_of i.
Proof.
  unfold listening, remote_streams, remote_stream_of.
  step_cases i p; intros; try contradiction; observe;
    simpl in *;
    repeat match goal with
           | H : _ /\ _ |- _ => destruct H
           | H : Some _ = Some _ |- _ => inversion H; subst; clear H
           end; simpl in *; congruence.
Qed.

(** X18: on a created peer, over any sequence of method calls and transport
    callbacks, a 'remote stream' event carrying the stream of the event is
    emitted for every stream notification of the transport, in order, and
    for nothing else. *)
Theorem remote_streams_relayed_in_order (ins : list input) (p : Peer) :
  listening p ->
  remote_streams (trace (run ins p))
  = remote_streams (trace p) ++ flat_map remote_stream_of ins.
Proof.
  intros Hp.
  apply (run_fold (fun _ => True) listening
           (fun q => remote_streams (trace q)) remote_stream_of);
    [|apply Forall_any|exact Hp].
  intros i q _ Hq. split; [now apply step_listening|now apply step_remote_streams].
Qed.

Lemma remote_streams_relayed_in_order_witness :
  listening created_peer
  /\ remote_streams (trace (run [AddStreamEvent (VObj [("stream", VStr "far camera")]);
                                 Answer VUndefined VUndefined;
                                 AddStreamEvent (VObj [("stream", VStr "far screen")])]
                                created_peer))
     = [[VStr "far camera"]; [VStr "far screen"]].
Proof.
  split; [exact listening_created_peer|].
  exact (remote_streams_relayed_in_order
           [AddStreamEvent (VObj [("stream", VStr "far camera")]);
            Answer VUndefined VUndefined;
            AddStreamEvent (VObj [("stream", VStr "far screen")])]
           created_peer listening_created_peer).
Defined.
